(** * Sandboxed document parser ([packages/document-parser/parse.py])

    A shallow embedding of the parser's pipeline and the properties of its
    section detector, text extractor, content hasher, result assembler and
    command-line entry point.

    Python [str] values are modelled as lists of Unicode code points, Python
    integers as [Z], dictionaries with a fixed literal key set as records and
    the PDF library ([fitz]) as an explicit description of what each of its
    calls returns or raises. *)

From Stdlib Require Import ZArith NArith List String Ascii Decimal DecimalPos.
From Stdlib Require Import Lia Permutation Sorted.
From stdpp Require Import base list strings gmap.

Local Open Scope Z_scope.

(** ** Python strings *)

Abbreviation str := (list N) (only parsing).

(** An ASCII literal of the source, as a Python string. *)
Definition lit (s : string) : str := map N_of_ascii (list_ascii_of_string s).

(** The newline character ["\n"]. *)
Definition nl : N := 10%N.

(** [len(s)] *)
Definition len (s : str) : Z := Z.of_nat (length s).

(** [s.startswith(sub)] *)
Fixpoint starts_with (sub s : str) : bool :=
  match sub, s with
  | [], _ => true
  | _ :: _, [] => false
  | a :: sub', b :: s' => (a =? b)%N && starts_with sub' s'
  end.

(** [s.find(sub)]: the lowest index at which [sub] occurs in [s], [-1] when
    it occurs nowhere. [find_from] scans the suffix of [s] that starts at
    index [i]. *)
Fixpoint find_from (s sub : str) (i : Z) : Z :=
  if starts_with sub s then i
  else match s with
       | [] => -1
       | _ :: s' => find_from s' sub (i + 1)
       end.

Definition find (s sub : str) : Z := find_from s sub 0.

(** [s.upper()] maps every character to its (possibly longer) upper-case
    expansion; the Unicode table itself, [upper_char], belongs to the
    interpreter and is a parameter of the model. *)
Definition upper (upper_char : N -> str) (s : str) : str :=
  flat_map upper_char s.

(** The upper-case table of Python restricted to Latin-1: exact for code
    points below 256 (note [U+00DF] which expands to two characters), the
    identity above. Used to evaluate the detector on concrete texts. *)
Definition upper_char_latin1 (c : N) : str :=
  if ((97 <=? c) && (c <=? 122))%N then [(c - 32)%N]
  else if (c =? 181)%N then [924%N]
  else if (c =? 223)%N then [83%N; 83%N]
  else if ((224 <=? c) && (c <=? 254) && negb (c =? 247))%N then [(c - 32)%N]
  else if (c =? 255)%N then [376%N]
  else [c].

(** [sep.join(parts)] *)
Fixpoint join (sep : str) (parts : list str) : str :=
  match parts with
  | [] => []
  | [p] => p
  | p :: rest => p ++ sep ++ join sep rest
  end.

(** [str.isspace] on one character: the code points Python's [strip()]
    removes. *)
Definition py_isspace (c : N) : bool :=
  (((9 <=? c) && (c <=? 13)) || ((28 <=? c) && (c <=? 32))
   || (c =? 133) || (c =? 160) || (c =? 5760)
   || ((8192 <=? c) && (c <=? 8202))
   || (c =? 8232) || (c =? 8233) || (c =? 8239) || (c =? 8287)
   || (c =? 12288))%N.

Fixpoint lstrip (s : str) : str :=
  match s with
  | c :: s' => if py_isspace c then lstrip s' else s
  | [] => []
  end.

(** [s.strip()] *)
Definition strip (s : str) : str := rev (lstrip (rev (lstrip s))).

(** Decimal digits of a positive number, most significant first. *)
Fixpoint uint_chars (d : Decimal.uint) : str :=
  match d with
  | Nil => []
  | D0 d => 48%N :: uint_chars d
  | D1 d => 49%N :: uint_chars d
  | D2 d => 50%N :: uint_chars d
  | D3 d => 51%N :: uint_chars d
  | D4 d => 52%N :: uint_chars d
  | D5 d => 53%N :: uint_chars d
  | D6 d => 54%N :: uint_chars d
  | D7 d => 55%N :: uint_chars d
  | D8 d => 56%N :: uint_chars d
  | D9 d => 57%N :: uint_chars d
  end.

(** [str(n)] for a Python integer, as an f-string renders it. *)
Definition str_of_int (n : Z) : str :=
  match n with
  | Z0 => [48%N]
  | Zpos p => uint_chars (Pos.to_uint p)
  | Zneg p => 45%N :: uint_chars (Pos.to_uint p)
  end.

(** ** Section detector ([detect_sections]) *)

(** The dictionary appended for a found header: [name], [startIndex] and
    [detected]; [endIndex] is added by the last loop. *)
Record TentativeSpan := {
  t_name : string;
  t_startIndex : Z;
  t_detected : bool;
}.

Record SectionSpan := {
  name : string;
  startIndex : Z;
  detected : bool;
  endIndex : Z;
}.

Definition section_patterns : list string := [
  "CHIEF COMPLAINT";
  "HISTORY OF PRESENT ILLNESS";
  "HPI";
  "PAST MEDICAL HISTORY";
  "PMH";
  "MEDICATIONS";
  "ALLERGIES";
  "SOCIAL HISTORY";
  "FAMILY HISTORY";
  "REVIEW OF SYSTEMS";
  "ROS";
  "PHYSICAL EXAMINATION";
  "PHYSICAL EXAM";
  "VITAL SIGNS";
  "VITALS";
  "ASSESSMENT";
  "PLAN";
  "ASSESSMENT AND PLAN";
  "A/P";
  "LABS";
  "LABORATORY";
  "IMAGING";
  "RADIOLOGY";
  "DIAGNOSIS";
  "DIAGNOSES";
  "IMPRESSION";
  "RECOMMENDATIONS";
  "FOLLOW UP";
  "FOLLOW-UP";
  "DISCHARGE SUMMARY";
  "OPERATIVE REPORT";
  "PROCEDURE NOTE"
]%string.

(** The three needles of one header, in probing order. *)
Definition needle_colon (pattern : string) : str := nl :: lit pattern ++ lit ":".
Definition needle_newline (pattern : string) : str := nl :: lit pattern ++ [nl].
Definition needle_space (pattern : string) : str := nl :: lit pattern ++ lit " ".

Definition search_patterns (pattern : string) : list str :=
  [needle_colon pattern; needle_newline pattern; needle_space pattern].

(** The inner loop: the index of the first needle that [find] locates, the
    later needles being skipped by [break]. *)
Fixpoint first_found (text_upper : str) (needles : list str) : option Z :=
  match needles with
  | [] => None
  | search :: rest =>
      let idx := find text_upper search in
      if negb (idx =? -1) then Some idx else first_found text_upper rest
  end.

(** The outer loop over the vocabulary, appending at most one dictionary per
    header. *)
Fixpoint scan_patterns (text_upper : str) (patterns : list string)
  : list TentativeSpan :=
  match patterns with
  | [] => []
  | pattern :: rest =>
      match first_found text_upper (search_patterns pattern) with
      | Some idx =>
          {| t_name := pattern; t_startIndex := idx + 1; t_detected := true |}
          :: scan_patterns text_upper rest
      | None => scan_patterns text_upper rest
      end
  end.

(** [sections.sort(key=lambda x: x["startIndex"])]: a stable sort, modelled
    by insertion from the right, an element going before the first later
    element whose key is not smaller. *)
Fixpoint insert_span (x : TentativeSpan) (l : list TentativeSpan)
  : list TentativeSpan :=
  match l with
  | [] => [x]
  | y :: l' =>
      if t_startIndex x <=? t_startIndex y then x :: l
      else y :: insert_span x l'
  end.

Fixpoint sort_spans (l : list TentativeSpan) : list TentativeSpan :=
  match l with
  | [] => []
  | x :: l' => insert_span x (sort_spans l')
  end.

(** The last loop: [endIndex] is the next span's [startIndex], or
    [len(text)] for the last span. *)
Fixpoint add_end_index (len_text : Z) (l : list TentativeSpan)
  : list SectionSpan :=
  match l with
  | [] => []
  | s :: rest =>
      {| name := t_name s;
         startIndex := t_startIndex s;
         detected := t_detected s;
         endIndex := match rest with
                     | next :: _ => t_startIndex next
                     | [] => len_text
                     end |}
      :: add_end_index len_text rest
  end.

Definition tentative_spans (upper_char : N -> str) (text : str)
  : list TentativeSpan :=
  scan_patterns (upper upper_char text) section_patterns.

Definition detect_sections (upper_char : N -> str) (text : str)
  : list SectionSpan :=
  add_end_index (len text) (sort_spans (tentative_spans upper_char text)).

(** ** Content hasher ([compute_hash]) *)

(** Exceptions, as far as the handlers of [parse_pdf] tell them apart:
    [fitz.FileDataError] and every other [Exception], each with the message
    [str(e)] renders. *)
Inductive exn :=
  | FileDataError (msg : str)
  | OtherException (msg : str).

(** What a call that may raise does. *)
Inductive outcome (A : Type) :=
  | Returns (a : A)
  | Raises (e : exn).
Arguments Returns {A} a.
Arguments Raises {A} e.

(** [content.encode('utf-8')]: the strict codec, which refuses surrogate
    code points (and there is no character above [U+10FFFF]). *)
Definition utf8_char (c : N) : option (list Z) :=
  let z := Z.of_N c in
  if z <? 0x80 then Some [z]
  else if z <? 0x800 then
    Some [Z.lor 0xC0 (Z.shiftr z 6); Z.lor 0x80 (Z.land z 0x3F)]
  else if (0xD800 <=? z) && (z <=? 0xDFFF) then None
  else if z <? 0x10000 then
    Some [Z.lor 0xE0 (Z.shiftr z 12);
          Z.lor 0x80 (Z.land (Z.shiftr z 6) 0x3F);
          Z.lor 0x80 (Z.land z 0x3F)]
  else if z <? 0x110000 then
    Some [Z.lor 0xF0 (Z.shiftr z 18);
          Z.lor 0x80 (Z.land (Z.shiftr z 12) 0x3F);
          Z.lor 0x80 (Z.land (Z.shiftr z 6) 0x3F);
          Z.lor 0x80 (Z.land z 0x3F)]
  else None.

Fixpoint utf8_encode (s : str) : option (list Z) :=
  match s with
  | [] => Some []
  | c :: s' =>
      match utf8_char c, utf8_encode s' with
      | Some bs, Some rest => Some (bs ++ rest)
      | _, _ => None
      end
  end.

(** [hashlib.sha256(data).hexdigest()] (FIPS 180-4) on a list of bytes,
    32-bit words being integers reduced modulo [2^32]. *)
Module Sha256.

Definition w32 (x : Z) : Z := x mod 2 ^ 32.
Definition add32 (a b : Z) : Z := w32 (a + b).
Definition rotr (n x : Z) : Z :=
  Z.lor (Z.shiftr x n) (w32 (Z.shiftl x (32 - n))).
Definition shr (n x : Z) : Z := Z.shiftr x n.
Definition not32 (x : Z) : Z := Z.lxor x 0xffffffff.

Definition Ch (x y z : Z) : Z := Z.lxor (Z.land x y) (Z.land (not32 x) z).
Definition Maj (x y z : Z) : Z :=
  Z.lxor (Z.lxor (Z.land x y) (Z.land x z)) (Z.land y z).
Definition Sigma0 (x : Z) : Z := Z.lxor (Z.lxor (rotr 2 x) (rotr 13 x)) (rotr 22 x).
Definition Sigma1 (x : Z) : Z := Z.lxor (Z.lxor (rotr 6 x) (rotr 11 x)) (rotr 25 x).
Definition sigma0 (x : Z) : Z := Z.lxor (Z.lxor (rotr 7 x) (rotr 18 x)) (shr 3 x).
Definition sigma1 (x : Z) : Z := Z.lxor (Z.lxor (rotr 17 x) (rotr 19 x)) (shr 10 x).

(** The constants are, as the standard defines them, the first 32 bits of
    the fractional parts of the square roots (initial hash value) and cube
    roots (round constants) of the first primes. *)
Definition is_prime (n : Z) : bool :=
  (1 <? n) &&
  forallb (fun d => negb (n mod d =? 0))
          (map Z.of_nat (seq 2 (Z.to_nat n - 2))).

Definition first_primes (count : nat) : list Z :=
  firstn count (List.filter is_prime (map Z.of_nat (seq 2 400))).

(** The integer part of the [k]-th root of [x], built bit by bit from
    bit [bits - 1] down. *)
Fixpoint root_bits (k : Z) (bits : nat) (x r : Z) : Z :=
  match bits with
  | O => r
  | S b =>
      let c := r + 2 ^ Z.of_nat b in
      if c ^ k <=? x then root_bits k b x c else root_bits k b x r
  end.

Definition root_fraction (k p : Z) : Z :=
  w32 (root_bits k 40 (p * 2 ^ (32 * k)) 0).

Definition H0 : list Z :=
  Eval vm_compute in map (root_fraction 2) (first_primes 8).

Definition K : list Z :=
  Eval vm_compute in map (root_fraction 3) (first_primes 64).

(** Big-endian bytes of [x], [n] of them. *)
Fixpoint be_bytes (n : nat) (x : Z) : list Z :=
  match n with
  | O => []
  | S n' => be_bytes n' (Z.shiftr x 8) ++ [Z.land x 0xff]
  end.

(** The message followed by [0x80], zero bytes up to 56 modulo 64, and the
    bit length on eight bytes. *)
Definition pad (msg : list Z) : list Z :=
  let l := Z.of_nat (length msg) in
  msg ++ [0x80] ++ repeat 0 (Z.to_nat ((55 - l) mod 64)) ++ be_bytes 8 (8 * l).

(** Big-endian words of a byte list. *)
Fixpoint words (bs : list Z) : list Z :=
  match bs with
  | b0 :: b1 :: b2 :: b3 :: rest =>
      (Z.shiftl b0 24 + Z.shiftl b1 16 + Z.shiftl b2 8 + b3) :: words rest
  | _ => []
  end.

(** The message schedule, from the sliding window of the last 16 words. *)
Fixpoint schedule (n : nat) (win : list Z) : list Z :=
  match n with
  | O => []
  | S n' =>
      let w := add32 (add32 (sigma1 (nth 14 win 0)) (nth 9 win 0))
                     (add32 (sigma0 (nth 1 win 0)) (nth 0 win 0)) in
      nth 0 win 0 :: schedule n' (tl win ++ [w])
  end.

Definition round (st : list Z) (kw : Z * Z) : list Z :=
  match st with
  | [a; b; c; d; e; f; g; h] =>
      let t1 := add32 (add32 (add32 h (Sigma1 e)) (Ch e f g))
                      (add32 (fst kw) (snd kw)) in
      let t2 := add32 (Sigma0 a) (Maj a b c) in
      [add32 t1 t2; a; b; c; add32 d t1; e; f; g]
  | _ => st
  end.

Fixpoint add_words (xs ys : list Z) : list Z :=
  match xs, ys with
  | x :: xs', y :: ys' => add32 x y :: add_words xs' ys'
  | _, _ => []
  end.

Definition compress (h : list Z) (block : list Z) : list Z :=
  add_words h (fold_left round (combine K (schedule 64 block)) h).

(** The blocks of 16 words each. *)
Fixpoint blocks (n : nat) (ws : list Z) : list (list Z) :=
  match n with
  | O => []
  | S n' =>
      match ws with
      | [] => []
      | _ => firstn 16 ws :: blocks n' (skipn 16 ws)
      end
  end.

Definition digest (msg : list Z) : list Z :=
  let ws := words (pad msg) in
  fold_left compress (blocks (length ws) ws) H0.

Definition hex_digit (d : Z) : N :=
  if d <? 10 then Z.to_N (48 + d) else Z.to_N (87 + d).

Definition hex_byte (b : Z) : str :=
  [hex_digit (Z.shiftr b 4); hex_digit (Z.land b 0xf)].

Definition hexdigest (msg : list Z) : str :=
  flat_map hex_byte (flat_map (be_bytes 4) (digest msg)).

End Sha256.

(** [compute_hash]: the encoding raises [UnicodeEncodeError] on a text that
    UTF-8 cannot encode. *)
Definition compute_hash (content : str) : outcome str :=
  match utf8_encode content with
  | Some bytes => Returns (Sha256.hexdigest bytes)
  | None =>
      Raises (OtherException
                (lit "'utf-8' codec can't encode character: surrogates not allowed"))
  end.

(** ** The PDF library and the process environment *)

Abbreviation Table := (list (list str)) (only parsing).

(** A page, by what its two methods do: [get_text()] and [find_tables()],
    the latter yielding tables whose [extract()] may raise in turn. *)
Record Page := {
  get_text : outcome str;
  find_tables : outcome (list (outcome Table));
}.

(** Values found in the dictionaries of the result. *)
Inductive pyvalue :=
  | PyNone
  | PyStr (s : str)
  | PyInt (n : Z).

Global Instance pyvalue_eq_dec : EqDecision pyvalue.
Proof. solve_decision. Defined.

(** An opened document: its pages and its [metadata] attribute, which is a
    dictionary or [None]. *)
Record Document := {
  doc_pages : list Page;
  doc_metadata : option (gmap string pyvalue);
}.

(** The values handed to [json.dump]; an object keeps its keys in
    insertion order. *)
#[local] Unset Elimination Schemes.
Inductive Json :=
  | JNull
  | JBool (b : bool)
  | JInt (n : Z)
  | JStr (s : str)
  | JList (items : list Json)
  | JObj (fields : list (string * Json)).
#[local] Set Elimination Schemes.

(** What one block [with open(path, 'w') as f: json.dump(value, f, ...)]
    does: [open] raises and the file is left as it was; or the file is
    opened, hence emptied, and [json.dump] or the closing of the file
    raises (an encoding error, a full disk); or the file holds the value. *)
Inductive write_outcome :=
  | NotOpened (e : exn)
  | Broken (e : exn)
  | Written.

(** Everything outside the program that a run depends on. [write_json n]
    tells what the [n]-th writing block of the run does (counted from 0),
    given the path, the value and the [ensure_ascii] flag. *)
Record World := {
  argv : list str;
  path_exists : str -> bool;
  utcnow_isoformat : str;
  unicode_upper : N -> str;
  unicode_lower : N -> str;
  fitz_open : str -> outcome Document;
  read_bytes : str -> outcome (list Z);
  path_name : str -> str;
  path_suffix : str -> str;
  stat_size : str -> outcome Z;
  format_exc : exn -> str;
  write_json : nat -> str -> Json -> bool -> write_outcome;
}.

(** ** The result dictionary *)

Record TableRecord := {
  page : Z;
  data : list (list str);
}.

Record ParseResult := {
  success : bool;
  pageCount : Z;
  text : str;
  tables : list TableRecord;
  metadata : gmap string pyvalue;
  sections : list SectionSpan;
  contentHash : str;
  warnings : list str;
  parsedAt : str;
}.

Definition set_success (b : bool) (r : ParseResult) : ParseResult :=
  {| success := b; pageCount := pageCount r; text := text r;
     tables := tables r; metadata := metadata r; sections := sections r;
     contentHash := contentHash r; warnings := warnings r;
     parsedAt := parsedAt r |}.

Definition set_pageCount (n : Z) (r : ParseResult) : ParseResult :=
  {| success := success r; pageCount := n; text := text r;
     tables := tables r; metadata := metadata r; sections := sections r;
     contentHash := contentHash r; warnings := warnings r;
     parsedAt := parsedAt r |}.

Definition set_text (t : str) (r : ParseResult) : ParseResult :=
  {| success := success r; pageCount := pageCount r; text := t;
     tables := tables r; metadata := metadata r; sections := sections r;
     contentHash := contentHash r; warnings := warnings r;
     parsedAt := parsedAt r |}.

Definition set_tables (t : list TableRecord) (r : ParseResult) : ParseResult :=
  {| success := success r; pageCount := pageCount r; text := text r;
     tables := t; metadata := metadata r; sections := sections r;
     contentHash := contentHash r; warnings := warnings r;
     parsedAt := parsedAt r |}.

Definition set_metadata (m : gmap string pyvalue) (r : ParseResult)
  : ParseResult :=
  {| success := success r; pageCount := pageCount r; text := text r;
     tables := tables r; metadata := m; sections := sections r;
     contentHash := contentHash r; warnings := warnings r;
     parsedAt := parsedAt r |}.

Definition set_sections (l : list SectionSpan) (r : ParseResult)
  : ParseResult :=
  {| success := success r; pageCount := pageCount r; text := text r;
     tables := tables r; metadata := metadata r; sections := l;
     contentHash := contentHash r; warnings := warnings r;
     parsedAt := parsedAt r |}.

Definition set_contentHash (h : str) (r : ParseResult) : ParseResult :=
  {| success := success r; pageCount := pageCount r; text := text r;
     tables := tables r; metadata := metadata r; sections := sections r;
     contentHash := h; warnings := warnings r; parsedAt := parsedAt r |}.

(** [result["warnings"].append(w)] *)
Definition append_warning (w : str) (r : ParseResult) : ParseResult :=
  {| success := success r; pageCount := pageCount r; text := text r;
     tables := tables r; metadata := metadata r; sections := sections r;
     contentHash := contentHash r; warnings := warnings r ++ [w];
     parsedAt := parsedAt r |}.

(** ** State and exceptions of [parse_pdf] *)

(** The result dictionary under construction and the document handle:
    whether [fitz.open] has returned one and whether [close()] was called
    on it. *)
Record Machine := {
  result : ParseResult;
  doc_opened : bool;
  doc_closed : bool;
}.

Definition M (A : Type) : Type := Machine -> outcome A * Machine.

Definition ret {A} (a : A) : M A := fun m => (Returns a, m).

Definition bind {A B} (c : M A) (k : A -> M B) : M B :=
  fun m =>
    match c m with
    | (Returns a, m') => k a m'
    | (Raises e, m') => (Raises e, m')
    end.

Notation "'let*' x ':=' c 'in' k" := (bind c (fun x => k))
  (at level 10, x name, c at level 100, k at level 200).
Notation "c ';;;' k" := (bind c (fun _ => k))
  (at level 100, k at level 200, right associativity).

(** A call whose only effect is to return or raise. *)
Definition call {A} (o : outcome A) : M A := fun m => (o, m).

(** An update of the result dictionary. *)
Definition update (f : ParseResult -> ParseResult) : M unit :=
  fun m =>
    (Returns tt,
     {| result := f (result m); doc_opened := doc_opened m;
        doc_closed := doc_closed m |}).

Definition read {A} (f : ParseResult -> A) : M A :=
  fun m => (Returns (f (result m)), m).

(** [fitz.open(input_path)] *)
Definition open_document (w : World) (input_path : str) : M Document :=
  fun m =>
    match fitz_open w input_path with
    | Returns doc =>
        (Returns doc,
         {| result := result m; doc_opened := true;
            doc_closed := doc_closed m |})
    | Raises e => (Raises e, m)
    end.

(** [doc.close()] *)
Definition close_document : M unit :=
  fun m =>
    (Returns tt,
     {| result := result m; doc_opened := doc_opened m;
        doc_closed := true |}).

Definition when (b : bool) (c : M unit) : M unit := if b then c else ret tt.

(** ** Table extractor ([extract_tables]) *)

(** Truth value of a string or list: non-empty. *)
Definition truthy {A} (l : list A) : bool :=
  match l with
  | [] => false
  | _ :: _ => true
  end.

(** The loop over the table finder, inside [try]: an exception ends the
    loop and is swallowed, the tables appended so far being kept. *)
Fixpoint collect_tables (finder : list (outcome (list (list str))))
    (tables : list (list (list str))) : list (list (list str)) :=
  match finder with
  | [] => tables
  | Raises _ :: _ => tables
  | Returns extracted :: rest =>
      collect_tables rest
        (if truthy extracted then tables ++ [extracted] else tables)
  end.

Definition extract_tables (p : Page) : list (list (list str)) :=
  match find_tables p with
  | Returns finder => collect_tables finder []
  | Raises _ => []
  end.

(** ** Primary pipeline ([parse_pdf]) *)

Definition page_marker (n : Z) : str :=
  lit "--- Page " ++ str_of_int n ++ lit " ---".

(** [f"--- Page {page_num + 1} ---\n{page_text}"] *)
Definition render_page (page_num : Z) (page_text : str) : str :=
  page_marker (page_num + 1) ++ nl :: page_text.

(** The loop over [enumerate(doc)], with its two accumulators. *)
Fixpoint extract_pages (page_num : Z) (pages : list Page)
    (all_text : list str) (all_tables : list TableRecord)
  : outcome (list str * list TableRecord) :=
  match pages with
  | [] => Returns (all_text, all_tables)
  | p :: rest =>
      match get_text p with
      | Raises e => Raises e
      | Returns page_text =>
          let all_text' :=
            if truthy page_text
            then all_text ++ [render_page page_num page_text]
            else all_text in
          let all_tables' :=
            all_tables ++
            map (fun table => {| page := page_num + 1; data := table |})
                (extract_tables p) in
          extract_pages (page_num + 1) rest all_text' all_tables'
      end
  end.

(** [metadata.get(key, "")] *)
Definition dict_get (m : gmap string pyvalue) (key : string) : pyvalue :=
  default (PyStr []) (m !! key).

(** [if metadata:] is true of a dictionary that is not empty. *)
Definition metadata_truthy (md : option (gmap string pyvalue)) : bool :=
  match md with
  | Some m => bool_decide (m <> ∅)
  | None => false
  end.

Definition pdf_metadata (m : gmap string pyvalue) : gmap string pyvalue :=
  list_to_map [
    ("title", dict_get m "title");
    ("author", dict_get m "author");
    ("subject", dict_get m "subject");
    ("creator", dict_get m "creator");
    ("producer", dict_get m "producer");
    ("creationDate", dict_get m "creationDate");
    ("modDate", dict_get m "modDate") ]%string.

Definition low_content_warning : str :=
  lit "Document appears to have very little text content".

Definition large_document_warning (n : Z) : str :=
  lit "Large document with " ++ str_of_int n ++ lit " pages".

(** The statements of the [try] block up to section detection. *)
Definition extraction_stage (w : World) (input_path : str) : M str :=
  let* doc := open_document w input_path in
  update (set_pageCount (Z.of_nat (length (doc_pages doc)))) ;;;
  when (metadata_truthy (doc_metadata doc))
       (update (set_metadata
                  (pdf_metadata (default ∅ (doc_metadata doc))))) ;;;
  let* extracted := call (extract_pages 0 (doc_pages doc) [] []) in
  let all_text := fst extracted in
  let all_tables := snd extracted in
  let full_text := join [nl; nl] all_text in
  update (set_text full_text) ;;;
  update (set_tables all_tables) ;;;
  let* h := call (compute_hash full_text) in
  update (set_contentHash h) ;;;
  update (set_sections (detect_sections (unicode_upper w) full_text)) ;;;
  ret full_text.

(** The rest of the [try] block: the two checks, [close()] and the
    success flag. *)
Definition assembly_stage (full_text : str) : M unit :=
  when (len (strip full_text) <? 100)
       (update (append_warning low_content_warning)) ;;;
  let* n := read pageCount in
  when (100 <? n) (update (append_warning (large_document_warning n))) ;;;
  close_document ;;;
  update (set_success true).

Definition try_block (w : World) (input_path : str) : M unit :=
  let* full_text := extraction_stage w input_path in
  assembly_stage full_text.

Definition initial_result (w : World) : ParseResult :=
  {| success := false; pageCount := 0; text := []; tables := [];
     metadata := ∅; sections := []; contentHash := []; warnings := [];
     parsedAt := utcnow_isoformat w ++ lit "Z" |}.

Definition initial_machine (w : World) : Machine :=
  {| result := initial_result w; doc_opened := false; doc_closed := false |}.

(** The two handlers. *)
Definition handle (e : exn) (r : ParseResult) : ParseResult :=
  match e with
  | FileDataError msg =>
      set_success false (append_warning (lit "PDF parsing error: " ++ msg) r)
  | OtherException msg =>
      set_success false (append_warning (lit "Unexpected error: " ++ msg) r)
  end.

(** A run of [parse_pdf], with the state of the document handle when the
    function returns. *)
Definition run_parse_pdf (w : World) (input_path : str) : Machine :=
  match try_block w input_path (initial_machine w) with
  | (Returns _, m) => m
  | (Raises e, m) =>
      {| result := handle e (result m); doc_opened := doc_opened m;
         doc_closed := doc_closed m |}
  end.

Definition parse_pdf (w : World) (input_path : str) : ParseResult :=
  result (run_parse_pdf w input_path).

(** ** Alternate path ([parse_image]) *)

Definition initial_image_result (w : World) : ParseResult :=
  {| success := false; pageCount := 1; text := []; tables := [];
     metadata := ∅; sections := []; contentHash := [];
     warnings := [lit "Image OCR not implemented - returning metadata only"];
     parsedAt := utcnow_isoformat w ++ lit "Z" |}.

(** [s.lower()], with the interpreter's table. *)
Definition lower (lower_char : N -> str) (s : str) : str :=
  flat_map lower_char s.

Definition image_try_block (w : World) (input_path : str) : M unit :=
  let* content := call (read_bytes w input_path) in
  update (set_contentHash (Sha256.hexdigest content)) ;;;
  let* size := call (stat_size w input_path) in
  update (set_metadata
            (list_to_map [
               ("filename", PyStr (path_name w input_path));
               ("extension",
                PyStr (lower (unicode_lower w) (path_suffix w input_path)));
               ("sizeBytes", PyInt size) ]%string)) ;;;
  update (set_success true).

Definition parse_image (w : World) (input_path : str) : ParseResult :=
  let m0 := {| result := initial_image_result w; doc_opened := false;
               doc_closed := false |} in
  match image_try_block w input_path m0 with
  | (Returns _, m) => result m
  | (Raises (FileDataError msg), m)
  | (Raises (OtherException msg), m) =>
      set_success false
        (append_warning (lit "Image parsing error: " ++ msg) (result m))
  end.

(** ** Command-line entry point ([main]) *)

Definition json_of_value (v : pyvalue) : Json :=
  match v with
  | PyNone => JNull
  | PyStr s => JStr s
  | PyInt n => JInt n
  end.

Definition json_of_table (t : TableRecord) : Json :=
  JObj [ ("page", JInt (page t));
         ("data", JList (map (fun row => JList (map JStr row)) (data t))) ]%string.

Definition json_of_section (s : SectionSpan) : Json :=
  JObj [ ("name", JStr (lit (name s)));
         ("startIndex", JInt (startIndex s));
         ("detected", JBool (detected s));
         ("endIndex", JInt (endIndex s)) ]%string.

(** The keys of the two dictionary literals that build [metadata], in the
    order of their literals: that of [parse_pdf], then that of
    [parse_image]. *)
Definition metadata_key_order : list string :=
  [ "title"; "author"; "subject"; "creator"; "producer"; "creationDate";
    "modDate"; "filename"; "extension"; "sizeBytes" ]%string.

(** The metadata as [json.dump] writes it, the keys in insertion order. *)
Definition json_of_metadata (m : gmap string pyvalue) : list (string * Json) :=
  omap (fun key => (fun v => (key, json_of_value v)) <$> m !! key)
       metadata_key_order.

Definition json_of_result (r : ParseResult) : Json :=
  JObj [ ("success", JBool (success r));
         ("pageCount", JInt (pageCount r));
         ("text", JStr (text r));
         ("tables", JList (map json_of_table (tables r)));
         ("metadata", JObj (json_of_metadata (metadata r)));
         ("sections", JList (map json_of_section (sections r)));
         ("contentHash", JStr (contentHash r));
         ("warnings", JList (map JStr (warnings r)));
         ("parsedAt", JStr (parsedAt r)) ]%string.

(** The reduced dictionary written when the input file is missing. *)
Definition missing_input_result (w : World) (input_path : str) : Json :=
  JObj [ ("success", JBool false);
         ("error", JStr (lit "Input file not found: " ++ input_path));
         ("parsedAt", JStr (utcnow_isoformat w ++ lit "Z")) ]%string.

(** What a file the program opened for writing holds when the program
    exits: a truncated document, or the serialisation of a value with the
    given [ensure_ascii] flag. *)
Inductive FileState :=
  | Garbled
  | Holds (value : Json) (ensure_ascii : bool).

(** What a run of the program leaves behind: its exit code, the files it
    opened for writing with what they hold, and what it printed on the
    standard error stream. *)
Record ProcessExit := {
  exit_code : Z;
  files : list (str * FileState);
  stderr_lines : list str;
}.

(** [s.endswith(suffix)] *)
Definition ends_with (suffix s : str) : bool :=
  starts_with (rev suffix) (rev s).

Definition image_suffixes : list string :=
  [".png"; ".jpg"; ".jpeg"; ".gif"; ".bmp"; ".tiff"; ".tif"]%string.

(** Routing by file type. *)
Definition parse_by_type (w : World) (input_path : str) : ParseResult :=
  let input_lower := lower (unicode_lower w) input_path in
  if ends_with (lit ".pdf") input_lower then parse_pdf w input_path
  else if existsb (fun sfx => ends_with (lit sfx) input_lower) image_suffixes
  then parse_image w input_path
  else
    let r := parse_pdf w input_path in
    if negb (success r)
    then append_warning (lit "Unknown file type, attempted PDF parsing") r
    else r.

(** [str(e)] *)
Definition exn_message (e : exn) : str :=
  match e with
  | FileDataError msg => msg
  | OtherException msg => msg
  end.

(** The dictionary written by the last handler of [main]. *)
Definition uncaught_result (w : World) (e : exn) : Json :=
  JObj [ ("success", JBool false);
         ("error", JStr (exn_message e));
         ("traceback", JStr (format_exc w e));
         ("parsedAt", JStr (utcnow_isoformat w ++ lit "Z")) ]%string.

(** One block [with open(path, 'w') as f: json.dump(value, f, ...)],
    the [attempt]-th of the run: what it returns or raises, and what the
    file holds afterwards, [before] being what it held ([None]: the run
    has not opened it). *)
Definition dump_to (w : World) (attempt : nat) (path : str) (value : Json)
    (ensure_ascii : bool) (before : option FileState)
  : outcome unit * option FileState :=
  match write_json w attempt path value ensure_ascii with
  | NotOpened e => (Raises e, before)
  | Broken e => (Raises e, Some Garbled)
  | Written => (Returns tt, Some (Holds value ensure_ascii))
  end.

Definition files_of (path : str) (st : option FileState)
  : list (str * FileState) :=
  match st with
  | Some held => [(path, held)]
  | None => []
  end.

(** [sys.exit(code)] *)
Definition exits (code : Z) (path : str) (st : option FileState)
  : ProcessExit :=
  {| exit_code := code; files := files_of path st; stderr_lines := [] |}.

(** An exception that no handler catches: the interpreter prints the
    traceback and exits with code 1. *)
Definition uncaught (w : World) (e : exn) (path : str)
    (st : option FileState) : ProcessExit :=
  {| exit_code := 1; files := files_of path st;
     stderr_lines := [format_exc w e] |}.

(** The [try] block of [main]: parse, write the result, and leave with the
    code the result calls for. Both parsers catch what their stages raise,
    so only the writing block can raise here; [sys.exit] raises
    [SystemExit], which [except Exception] does not catch. *)
Definition main_try (w : World) (input_path output_path : str)
  : outcome Z * option FileState :=
  let r := parse_by_type w input_path in
  match dump_to w 0 output_path (json_of_result r) false None with
  | (Returns _, st) => (Returns (if success r then 0 else 1), st)
  | (Raises e, st) => (Raises e, st)
  end.

(** [main]. The writing block of the missing-input branch stands outside
    any [try]; the one of the last handler is its second of the run. *)
Definition main (w : World) : ProcessExit :=
  match argv w with
  | [_; input_path; output_path] =>
      if negb (path_exists w input_path) then
        match dump_to w 0 output_path
                (missing_input_result w input_path) true None with
        | (Returns _, st) => exits 1 output_path st
        | (Raises e, st) => uncaught w e output_path st
        end
      else
        match main_try w input_path output_path with
        | (Returns code, st) => exits code output_path st
        | (Raises e, st) =>
            match dump_to w 1 output_path (uncaught_result w e) true st with
            | (Returns _, st') => exits 1 output_path st'
            | (Raises e', st') => uncaught w e' output_path st'
            end
        end
  | _ =>
      {| exit_code := 1;
         files := [];
         stderr_lines :=
           [lit "Usage: python parse.py <input_file> <output_file>"] |}
  end.

(** ** Vocabulary of the statements *)

(** [sub] occurs in [s] at index [i]. *)
Definition occurs_at (sub s : str) (i : nat) : Prop :=
  exists pre post, s = pre ++ sub ++ post /\ length pre = i.

(** [i] is the index of the leftmost occurrence of [sub] in [s]. *)
Definition leftmost (sub s : str) (i : nat) : Prop :=
  occurs_at sub s i /\ forall j, (j < i)%nat -> ~ occurs_at sub s j.

(** [sub] occurs nowhere in [s]. *)
Definition absent (sub s : str) : Prop :=
  forall j, ~ occurs_at sub s j.

(** The order the sort establishes on the tentative spans. *)
Definition start_le (a b : TentativeSpan) : Prop :=
  t_startIndex a <= t_startIndex b.

(** The dictionary appended for [pattern] when a needle is found at
    [idx]. *)
Definition span_at (pattern : string) (idx : Z) : TentativeSpan :=
  {| t_name := pattern; t_startIndex := idx + 1; t_detected := true |}.

(** What the detector records for [pattern]: the dictionaries appended by
    the scan and the starts of the spans returned under that name. *)
Definition recorded (upper_char : N -> str) (text : str) (pattern : string)
    (starts : list Z) : Prop :=
  filter (fun t => t_name t = pattern) (tentative_spans upper_char text) =
    map (fun st => {| t_name := pattern; t_startIndex := st;
                      t_detected := true |}) starts /\
  startIndex <$>
    filter (fun s => name s = pattern) (detect_sections upper_char text) =
    starts.

(** The indices at which [sub] occurs in [s], those of [s] starting at
    [i]. *)
Fixpoint occurrences_from (sub s : str) (i : nat) : list nat :=
  (if starts_with sub s then [i] else []) ++
  match s with
  | [] => []
  | _ :: s' => occurrences_from sub s' (S i)
  end.

(** ** The result dictionary, stage by stage *)

(** The result dictionary once the document is open: page count and
    metadata. *)
Definition after_open (w : World) (doc : Document) : ParseResult :=
  let r := set_pageCount (Z.of_nat (length (doc_pages doc))) (initial_result w) in
  if metadata_truthy (doc_metadata doc)
  then set_metadata (pdf_metadata (default ∅ (doc_metadata doc))) r
  else r.

(** The result dictionary once the pages are read: text and tables. *)
Definition after_pages (w : World) (doc : Document)
    (extracted : list str * list TableRecord) : ParseResult :=
  set_tables (snd extracted)
    (set_text (join [nl; nl] (fst extracted)) (after_open w doc)).

(** The result dictionary once extraction is complete: hash and sections. *)
Definition after_extraction (w : World) (doc : Document)
    (extracted : list str * list TableRecord) (h : str) : ParseResult :=
  set_sections
    (detect_sections (unicode_upper w) (join [nl; nl] (fst extracted)))
    (set_contentHash h (after_pages w doc extracted)).

(** The two checks of the assembler. *)
Definition with_warnings (r : ParseResult) : ParseResult :=
  let r1 := if len (strip (text r)) <? 100
            then append_warning low_content_warning r else r in
  if 100 <? pageCount r1
  then append_warning (large_document_warning (pageCount r1)) r1 else r1.

(** ** Page markers in a text *)

Definition is_digit (c : N) : bool := ((48 <=? c) && (c <=? 57))%N.

(** The rest of [s] after the prefix [pre], when [s] starts with it. *)
Fixpoint strip_prefix (pre s : str) : option str :=
  match pre with
  | [] => Some s
  | a :: pre' =>
      match s with
      | b :: s' => if (a =? b)%N then strip_prefix pre' s' else None
      | [] => None
      end
  end.

Fixpoint skip_digits (s : str) : str :=
  match s with
  | c :: s' => if is_digit c then skip_digits s' else s
  | [] => []
  end.

Definition marker_open : str := Eval cbv in lit "--- Page ".
Definition marker_close : str := Eval cbv in lit " ---".

(** A page marker, [--- Page N ---] with [N] one or more decimal digits,
    starts [s]. *)
Definition marker_here (s : str) : bool :=
  match strip_prefix marker_open s with
  | Some (c :: r) => is_digit c && starts_with marker_close (skip_digits r)
  | _ => false
  end.

(** The number of page markers in a text. *)
Fixpoint count_markers (s : str) : nat :=
  match s with
  | [] => 0
  | _ :: s' => (if marker_here s then 1 else 0) + count_markers s'
  end.

(** The pages that contribute to the text: position and text of those
    whose text is not empty, positions counted from [k]. *)
Definition numbered_from (k : nat) (texts : list str) : list (nat * str) :=
  filter (fun it => it.2 <> []) (imap (fun i t => ((k + i)%nat, t)) texts).

Definition chunk (it : nat * str) : str :=
  page_marker (Z.of_nat it.1 + 1) ++ nl :: it.2.

(** ** Concrete texts, documents and worlds *)

(** The example of the specification: two headers, each followed by a
    colon. *)
Definition stable_note : str :=
  nl :: lit "ASSESSMENT:" ++ nl :: lit "Patient is stable." ++
  nl :: lit "PLAN:" ++ nl :: lit "Continue current meds." ++ [nl].

(** A note that opens with its header, no newline before it. *)
Definition headed_note : str :=
  lit "PLAN:" ++ nl :: lit "Continue current meds." ++ [nl].

(** Seven sharp s, which upper-casing doubles, and then a header. *)
Definition sharp_s_note : str := repeat 223%N 7 ++ nl :: lit "PLAN:".

Definition lower_char_ascii (c : N) : str :=
  if ((65 <=? c) && (c <=? 90))%N then [(c + 32)%N] else [c].

(** A world in which every path is present or absent according to
    [present], [fitz.open] does [opened] and every file can be written. *)
Definition world_of (args : list str) (present : bool)
    (opened : outcome Document) : World :=
  {| argv := args;
     path_exists := fun _ => present;
     utcnow_isoformat := lit "2025-01-01T00:00:00";
     unicode_upper := upper_char_latin1;
     unicode_lower := lower_char_ascii;
     fitz_open := fun _ => opened;
     read_bytes := fun _ => Raises (OtherException (lit "cannot read"));
     path_name := fun p => p;
     path_suffix := fun _ => [];
     stat_size := fun _ => Returns 0;
     format_exc := fun _ => lit "Traceback (most recent call last):";
     write_json := fun _ _ _ _ => Written |}.

(** A page with the given text and no table. *)
Definition text_page (t : str) : Page :=
  {| get_text := Returns t; find_tables := Returns [] |}.

Definition titled : gmap string pyvalue :=
  {[ "title"%string := PyStr (lit "Discharge letter") ]}.

(** A scanned document: one page, an image, no text. *)
Definition scanned_document : Document :=
  {| doc_pages := [text_page []]; doc_metadata := Some titled |}.

(** A page whose text holds a lone surrogate, [U+D800]. *)
Definition surrogate_document : Document :=
  {| doc_pages := [text_page [55296%N]]; doc_metadata := Some titled |}.

(** A document whose only page cannot be read. *)
Definition unreadable_page_document : Document :=
  {| doc_pages := [ {| get_text := Raises (OtherException (lit "cannot load page"));
                       find_tables := Returns [] |} ];
     doc_metadata := Some titled |}.

(** A document without metadata. *)
Definition bare_document : Document :=
  {| doc_pages := [text_page (lit "Hello")]; doc_metadata := None |}.

Definition short_document : Document :=
  {| doc_pages := [text_page (lit "Hello")]; doc_metadata := Some titled |}.

Definition job_input : str := lit "/job/input.pdf".
Definition job_output : str := lit "/job/output.json".

(** The world [w] in which the writing blocks do what [oracle] tells. *)
Definition with_write (w : World)
    (oracle : nat -> str -> Json -> bool -> write_outcome) : World :=
  {| argv := argv w;
     path_exists := path_exists w;
     utcnow_isoformat := utcnow_isoformat w;
     unicode_upper := unicode_upper w;
     unicode_lower := unicode_lower w;
     fitz_open := fitz_open w;
     read_bytes := read_bytes w;
     path_name := path_name w;
     path_suffix := path_suffix w;
     stat_size := stat_size w;
     format_exc := format_exc w;
     write_json := oracle |}.


Definition cannot_encode : exn :=
  OtherException (lit "'utf-8' codec can't encode character: surrogates not allowed").


(** The job whose result cannot be encoded into the output file: the
    first writing block breaks, the next one goes through. *)
Definition unencodable_job : World :=
  with_write
    (world_of [lit "parse.py"; job_input; job_output] true
       (Returns short_document))
    (fun attempt _ _ _ =>
       match attempt with
       | O => Broken cannot_encode
       | S _ => Written
       end).

(** Three pages, the second without text. *)
Definition three_page_document : Document :=
  {| doc_pages := [text_page (lit "Intro"); text_page []; text_page (lit "Body")];
     doc_metadata := Some titled |}.

(** A page whose own text is a marker line. *)
Definition marker_line_document : Document :=
  {| doc_pages := [text_page (lit "--- Page 1 ---")];
     doc_metadata := Some titled |}.

(** ** Further vocabulary and inputs *)

(** The records one page contributes, [i] being its 0-based position. *)
Definition page_tables (i : nat) (p : Page) : list TableRecord :=
  (fun t => {| page := Z.of_nat i + 1; data := t |}) <$> extract_tables p.

(** A page with one table, a page without text whose table finder fails,
    and a page with two tables. *)
Definition tabled_document : Document :=
  {| doc_pages :=
       [ {| get_text := Returns (lit "Labs");
            find_tables := Returns [Returns [[lit "Na"; lit "140"]]] |};
         {| get_text := Returns [];
            find_tables := Raises (OtherException (lit "no finder")) |};
         {| get_text := Returns (lit "Meds");
            find_tables := Returns [ Returns [[lit "ASA"]];
                                     Returns [[lit "Statin"]] ] |} ];
     doc_metadata := None |}.

(** The world [w] in which [fitz.open] does [opened]. *)
Definition with_document (w : World) (opened : outcome Document) : World :=
  {| argv := argv w;
     path_exists := path_exists w;
     utcnow_isoformat := utcnow_isoformat w;
     unicode_upper := unicode_upper w;
     unicode_lower := unicode_lower w;
     fitz_open := fun _ => opened;
     read_bytes := read_bytes w;
     path_name := path_name w;
     path_suffix := path_suffix w;
     stat_size := stat_size w;
     format_exc := format_exc w;
     write_json := write_json w |}.

(** Two results that agree on every key but [tables]. *)
Definition same_but_tables (r1 r2 : ParseResult) : Prop :=
  success r1 = success r2 /\ pageCount r1 = pageCount r2 /\
  text r1 = text r2 /\ metadata r1 = metadata r2 /\
  sections r1 = sections r2 /\ contentHash r1 = contentHash r2 /\
  warnings r1 = warnings r2 /\ parsedAt r1 = parsedAt r2.

(** The texts of [tabled_document], on pages whose table finder always
    fails. *)
Definition finderless_document : Document :=
  {| doc_pages :=
       (fun t => {| get_text := Returns t;
                    find_tables := Raises (OtherException (lit "no finder")) |})
         <$> [lit "Labs"; []; lit "Meds"];
     doc_metadata := None |}.

(** The warning a handler records for an exception. *)
Definition error_warning (e : exn) : str :=
  match e with
  | FileDataError msg => lit "PDF parsing error: " ++ msg
  | OtherException msg => lit "Unexpected error: " ++ msg
  end.

(** Two pages, the second of which cannot be read. *)
Definition half_readable_document : Document :=
  {| doc_pages :=
       [ {| get_text := Returns (lit "Intro");
            find_tables := Returns [Returns [[lit "Na"; lit "140"]]] |};
         {| get_text := Raises (FileDataError (lit "broken page"));
            find_tables := Returns [] |} ];
     doc_metadata := None |}.

Definition ocr_warning : str :=
  lit "Image OCR not implemented - returning metadata only".

Definition unknown_type_warning : str :=
  lit "Unknown file type, attempted PDF parsing".

(** The value under [key] in a JSON object. *)
Fixpoint assoc (key : string) (fields : list (string * Json)) : option Json :=
  match fields with
  | [] => None
  | (k, v) :: rest => if decide (k = key) then Some v else assoc key rest
  end.

Definition json_field (key : string) (j : Json) : option Json :=
  match j with
  | JObj fields => assoc key fields
  | _ => None
  end.

(** A line without a newline before it. *)
Definition single_line : str := lit "PLAN: continue current meds".

(** The code points UTF-8 encodes: all but the surrogates, up to
    [U+10FFFF]. *)
Definition encodable (c : N) : Prop :=
  (c < 55296 \/ 57343 < c < 1114112)%N.

(** A lower-case hexadecimal digit. *)
Definition is_hex (c : N) : Prop :=
  (48 <= c <= 57 \/ 97 <= c <= 102)%N.

(** * Properties *)

(** ** Searching *)

Lemma starts_with_app (sub s : str) :
  starts_with sub s = true <-> exists post, s = sub ++ post.
Proof.
  revert s. induction sub as [|a sub IH]; intros s; simpl.
  - split; [intros _; exists s; reflexivity | reflexivity].
  - destruct s as [|b s].
    + split; [discriminate | intros [post H]; discriminate].
    + rewrite andb_true_iff, N.eqb_eq, IH. split.
      * intros [-> [post ->]]. exists post. reflexivity.
      * intros [post H]. injection H as -> ->. eauto.
Qed.

Lemma occurs_at_zero (sub s : str) :
  occurs_at sub s 0 <-> starts_with sub s = true.
Proof.
  rewrite starts_with_app. unfold occurs_at. split.
  - intros (pre & post & -> & Hlen). destruct pre; [|discriminate].
    exists post. reflexivity.
  - intros [post ->]. exists [], post. split; reflexivity.
Qed.

Lemma occurs_at_succ (sub : str) (c : N) (s : str) (i : nat) :
  occurs_at sub (c :: s) (S i) <-> occurs_at sub s i.
Proof.
  unfold occurs_at. split.
  - intros (pre & post & H & Hlen). destruct pre as [|c' pre]; [discriminate|].
    simpl in H, Hlen. injection H as -> ->. exists pre, post. split; [reflexivity | lia].
  - intros (pre & post & -> & Hlen). exists (c :: pre), post.
    split; [reflexivity | simpl; lia].
Qed.

Lemma occurs_at_nil_succ (sub : str) (i : nat) : ~ occurs_at sub [] (S i).
Proof.
  intros (pre & post & H & Hlen). destruct pre; discriminate.
Qed.

Lemma occurs_at_bound (sub s : str) (i : nat) :
  occurs_at sub s i -> (i + length sub <= length s)%nat.
Proof.
  intros (pre & post & -> & <-). rewrite !length_app. lia.
Qed.

(** [find_from] returns [-1], the text holding no occurrence, or the
    offset of the leftmost one. *)
Lemma find_from_spec (sub s : str) (i : Z) :
  (find_from s sub i = -1 /\ absent sub s) \/
  (exists k : nat, find_from s sub i = i + Z.of_nat k /\ leftmost sub s k).
Proof.
  revert i. induction s as [|c s IH]; intros i; simpl.
  - destruct (starts_with sub []) eqn:E.
    + right. exists 0%nat. split; [lia|]. split.
      * apply occurs_at_zero, E.
      * intros j Hj. lia.
    + left. split; [reflexivity|]. intros [|j] H.
      * apply occurs_at_zero in H. congruence.
      * eapply occurs_at_nil_succ, H.
  - destruct (starts_with sub (c :: s)) eqn:E.
    + right. exists 0%nat. split; [lia|]. split.
      * apply occurs_at_zero, E.
      * intros j Hj. lia.
    + destruct (IH (i + 1)) as [[Hf Ha] | (k & Hf & Ho & Hl)].
      * left. split; [exact Hf|]. intros [|j] H.
        -- apply occurs_at_zero in H. congruence.
        -- apply occurs_at_succ in H. eapply Ha, H.
      * right. exists (S k). split; [lia|]. split.
        -- apply occurs_at_succ, Ho.
        -- intros [|j] Hj H.
           ++ apply occurs_at_zero in H. congruence.
           ++ apply occurs_at_succ in H. apply (Hl j); [lia | exact H].
Qed.

Lemma leftmost_unique (sub s : str) (i j : nat) :
  leftmost sub s i -> leftmost sub s j -> i = j.
Proof.
  intros [Hi Li] [Hj Lj].
  destruct (Nat.lt_trichotomy i j) as [H | [H | H]]; [|exact H|].
  - exfalso. eapply Lj; eauto.
  - exfalso. eapply Li; eauto.
Qed.

Lemma find_leftmost (sub s : str) (i : nat) :
  leftmost sub s i -> find s sub = Z.of_nat i.
Proof.
  intros H. unfold find.
  destruct (find_from_spec sub s 0) as [[_ Ha] | (k & Hf & Hk)].
  - exfalso. eapply Ha, H.
  - rewrite Hf. rewrite (leftmost_unique _ _ _ _ H Hk). lia.
Qed.

Lemma find_absent (sub s : str) : absent sub s -> find s sub = -1.
Proof.
  intros H. unfold find.
  destruct (find_from_spec sub s 0) as [[Hf _] | (k & _ & Ho & _)].
  - exact Hf.
  - exfalso. eapply H, Ho.
Qed.

Lemma find_found (sub s : str) :
  find s sub <> -1 ->
  exists k : nat, find s sub = Z.of_nat k /\ leftmost sub s k.
Proof.
  intros H. unfold find in *.
  destruct (find_from_spec sub s 0) as [[Hf _] | (k & Hf & Hk)].
  - congruence.
  - exists k. split; [lia | exact Hk].
Qed.

(** ** Sorting and end indices *)

Lemma insert_span_perm (x : TentativeSpan) (l : list TentativeSpan) :
  Permutation (insert_span x l) (x :: l).
Proof.
  induction l as [|y l IH]; simpl.
  - reflexivity.
  - destruct (t_startIndex x <=? t_startIndex y).
    + reflexivity.
    + rewrite IH. apply perm_swap.
Qed.

Lemma sort_spans_perm (l : list TentativeSpan) :
  Permutation (sort_spans l) l.
Proof.
  induction l as [|x l IH]; simpl.
  - reflexivity.
  - rewrite insert_span_perm, IH. reflexivity.
Qed.

Lemma insert_span_sorted (x : TentativeSpan) (l : list TentativeSpan) :
  StronglySorted start_le l -> StronglySorted start_le (insert_span x l).
Proof.
  induction 1 as [|y l Hs IH Hall]; simpl.
  - repeat constructor.
  - destruct (t_startIndex x <=? t_startIndex y) eqn:E.
    + apply Z.leb_le in E. constructor.
      * constructor; assumption.
      * constructor; [exact E|].
        eapply Forall_impl; [exact Hall|].
        unfold start_le. intros z Hz. lia.
    + apply Z.leb_gt in E. constructor; [exact IH|].
      rewrite (insert_span_perm x l). constructor; [|exact Hall].
      unfold start_le. lia.
Qed.

Lemma sort_spans_sorted (l : list TentativeSpan) :
  StronglySorted start_le (sort_spans l).
Proof.
  induction l as [|x l IH]; simpl.
  - constructor.
  - apply insert_span_sorted, IH.
Qed.

Lemma strongly_sorted_lookup (l : list TentativeSpan) (i j : nat)
    (a b : TentativeSpan) :
  StronglySorted start_le l -> (i < j)%nat ->
  l !! i = Some a -> l !! j = Some b -> start_le a b.
Proof.
  intros Hs. revert i j. induction Hs as [|x l Hs IH Hall]; intros i j Hij Ha Hb.
  - discriminate.
  - destruct j as [|j]; [lia|]. destruct i as [|i]; simpl in *.
    + injection Ha as <-. rewrite Forall_forall in Hall.
      apply Hall. eapply list_elem_of_lookup_2, Hb.
    + apply (IH i j); [lia | assumption | assumption].
Qed.

(** The span at index [i] of the result is the tentative span at index
    [i], closed by the start of the span at index [i + 1] when there is
    one and by the length of the text otherwise. *)
Lemma add_end_index_lookup (n : Z) (l : list TentativeSpan) (i : nat) :
  add_end_index n l !! i =
  (fun t => {| name := t_name t; startIndex := t_startIndex t;
               detected := t_detected t;
               endIndex := from_option t_startIndex n (l !! S i) |})
    <$> l !! i.
Proof.
  revert i. induction l as [|t l IH]; intros i.
  - reflexivity.
  - destruct i as [|i].
    + simpl. destruct l; reflexivity.
    + simpl. apply IH.
Qed.

Lemma add_end_index_length (n : Z) (l : list TentativeSpan) :
  length (add_end_index n l) = length l.
Proof. induction l; simpl; congruence. Qed.

(** C1. For every text, the spans returned by [detect_sections] are in
    ascending order of [startIndex], every span but the last ends where the
    next one starts, and the last span ends at the length of the text. *)
Theorem detect_sections_contiguous (upper_char : N -> str) (text : str) :
  let ss := detect_sections upper_char text in
  (forall (i j : nat) (a b : SectionSpan),
      (i < j)%nat -> ss !! i = Some a -> ss !! j = Some b ->
      startIndex a <= startIndex b) /\
  (forall (i : nat) (a b : SectionSpan),
      ss !! i = Some a -> ss !! S i = Some b ->
      endIndex a = startIndex b) /\
  (forall a : SectionSpan, last ss = Some a -> endIndex a = len text).
Proof.
  intros ss. unfold ss, detect_sections.
  set (l := sort_spans (tentative_spans upper_char text)).
  assert (Hs : StronglySorted start_le l) by apply sort_spans_sorted.
  split; [|split].
  - intros i j a b Hij Ha Hb. rewrite add_end_index_lookup in Ha, Hb.
    destruct (l !! i) as [ta|] eqn:Ea; [|discriminate].
    destruct (l !! j) as [tb|] eqn:Eb; [|discriminate].
    injection Ha as <-. injection Hb as <-. simpl.
    exact (strongly_sorted_lookup l i j ta tb Hs Hij Ea Eb).
  - intros i a b Ha Hb. rewrite add_end_index_lookup in Ha, Hb.
    destruct (l !! i) as [ta|] eqn:Ea; [|discriminate].
    destruct (l !! S i) as [tb|] eqn:Eb; [|discriminate].
    injection Ha as <-. injection Hb as <-. reflexivity.
  - intros a Ha. rewrite last_lookup, add_end_index_length in Ha.
    rewrite add_end_index_lookup in Ha.
    destruct (l !! Nat.pred (length l)) as [ta|] eqn:Ea; [|discriminate].
    injection Ha as <-. simpl.
    assert (Hlen : (0 < length l)%nat).
    { apply lookup_lt_Some in Ea. lia. }
    rewrite (lookup_ge_None_2 l (S (Nat.pred (length l)))) by lia.
    reflexivity.
Qed.

(** ** Probing the needles *)

Lemma found_index_test (i : nat) : negb (Z.of_nat i =? -1) = true.
Proof. destruct (Z.eqb_spec (Z.of_nat i) (-1)); [lia | reflexivity]. Qed.

Lemma first_found_here (u search : str) (rest : list str) (i : nat) :
  leftmost search u i -> first_found u (search :: rest) = Some (Z.of_nat i).
Proof.
  intros H. simpl. rewrite (find_leftmost _ _ _ H), found_index_test.
  reflexivity.
Qed.

Lemma first_found_skip (u search : str) (rest : list str) :
  absent search u -> first_found u (search :: rest) = first_found u rest.
Proof. intros H. simpl. rewrite (find_absent _ _ H). reflexivity. Qed.

(** A found index comes from one of the needles, at its leftmost
    occurrence. *)
Lemma first_found_some (u : str) (needles : list str) (idx : Z) :
  first_found u needles = Some idx ->
  exists (search : str) (k : nat),
    search ∈ needles /\ idx = Z.of_nat k /\ leftmost search u k.
Proof.
  induction needles as [|search rest IH]; simpl; [discriminate|].
  destruct (Z.eqb_spec (find u search) (-1)) as [E|E]; simpl.
  - intros H. destruct (IH H) as (s' & k & Hin & Hk).
    exists s', k. split; [right; exact Hin | exact Hk].
  - intros H. injection H as <-.
    destruct (find_found _ _ E) as (k & Hk & Hl).
    exists search, k. split; [left | split; assumption].
Qed.

Lemma scan_patterns_other (u : str) (pats : list string) (p : string) :
  p ∉ pats -> filter (fun t => t_name t = p) (scan_patterns u pats) = [].
Proof.
  induction pats as [|q pats IH]; intros Hp; cbn [scan_patterns]; [reflexivity|].
  apply not_elem_of_cons in Hp as [Hpq Hp].
  destruct (first_found u (search_patterns q)).
  - rewrite filter_cons_False by (simpl; congruence). apply IH, Hp.
  - apply IH, Hp.
Qed.

(** Every header of a duplicate-free vocabulary contributes the span of
    its first found needle, or nothing. *)
Lemma scan_patterns_named (u : str) (pats : list string) (p : string) :
  NoDup pats -> p ∈ pats ->
  filter (fun t => t_name t = p) (scan_patterns u pats) =
  match first_found u (search_patterns p) with
  | Some idx => [span_at p idx]
  | None => []
  end.
Proof.
  induction 1 as [|q pats Hq Hnd IH]; intros Hp.
  - apply elem_of_nil in Hp as [].
  - cbn [scan_patterns]. destruct (decide (q = p)) as [->|Hne].
    + destruct (first_found u (search_patterns p)).
      * rewrite filter_cons_True by reflexivity.
        rewrite scan_patterns_other by exact Hq. reflexivity.
      * apply scan_patterns_other, Hq.
    + apply elem_of_cons in Hp as [Hp|Hp]; [congruence|].
      destruct (first_found u (search_patterns q)).
      * rewrite filter_cons_False by (simpl; congruence). apply IH, Hp.
      * apply IH, Hp.
Qed.

Lemma scan_patterns_elem (u : str) (pats : list string) (t : TentativeSpan) :
  t ∈ scan_patterns u pats ->
  exists idx, first_found u (search_patterns (t_name t)) = Some idx /\
              t_startIndex t = idx + 1.
Proof.
  induction pats as [|q pats IH]; cbn [scan_patterns].
  - intros H. apply elem_of_nil in H as [].
  - destruct (first_found u (search_patterns q)) as [idx|] eqn:E; [|exact IH].
    intros H. apply elem_of_cons in H as [->|H]; [|exact (IH H)].
    exists idx. split; [exact E | reflexivity].
Qed.

Lemma section_patterns_nodup : NoDup section_patterns.
Proof. apply (bool_decide_unpack _). vm_compute. exact I. Qed.

(** Names and starts survive the last loop. *)
Lemma add_end_index_named (n : Z) (l : list TentativeSpan) (p : string) :
  startIndex <$> filter (fun s => name s = p) (add_end_index n l) =
  t_startIndex <$> filter (fun t => t_name t = p) l.
Proof.
  induction l as [|t l IH]; [reflexivity|].
  cbn [add_end_index]. destruct (decide (t_name t = p)) as [E|E].
  - rewrite !filter_cons_True by exact E. cbn. f_equal. exact IH.
  - rewrite !filter_cons_False by exact E. exact IH.
Qed.

Lemma sort_spans_named (l : list TentativeSpan) (p : string)
    (t : TentativeSpan) :
  filter (fun t => t_name t = p) l = [t] ->
  filter (fun t => t_name t = p) (sort_spans l) = [t].
Proof.
  intros H. apply Permutation_singleton_r. rewrite <- H.
  apply filter_Permutation, sort_spans_perm.
Qed.

Lemma sort_spans_unnamed (l : list TentativeSpan) (p : string) :
  filter (fun t => t_name t = p) l = [] ->
  filter (fun t => t_name t = p) (sort_spans l) = [].
Proof.
  intros H. apply Permutation_nil_r. rewrite <- H.
  apply filter_Permutation, sort_spans_perm.
Qed.

Lemma recorded_scan (u : str) (pats : list string) (n : Z)
    (pattern : string) :
  NoDup pats -> pattern ∈ pats ->
  let starts := match first_found u (search_patterns pattern) with
                | Some idx => [idx + 1]
                | None => []
                end in
  filter (fun t => t_name t = pattern) (scan_patterns u pats) =
    map (fun st => {| t_name := pattern; t_startIndex := st;
                      t_detected := true |}) starts /\
  startIndex <$>
    filter (fun s => name s = pattern)
           (add_end_index n (sort_spans (scan_patterns u pats))) = starts.
Proof.
  intros Hnd Hin starts.
  pose proof (scan_patterns_named u pats pattern Hnd Hin) as Hscan.
  rewrite add_end_index_named. subst starts.
  destruct (first_found u (search_patterns pattern)) as [idx|].
  - split; [exact Hscan|].
    rewrite (sort_spans_named _ _ _ Hscan). reflexivity.
  - split; [exact Hscan|].
    rewrite (sort_spans_unnamed _ _ Hscan). reflexivity.
Qed.

Lemma recorded_first_found (upper_char : N -> str) (text : str)
    (pattern : string) :
  pattern ∈ section_patterns ->
  recorded upper_char text pattern
    match first_found (upper upper_char text) (search_patterns pattern) with
    | Some idx => [idx + 1]
    | None => []
    end.
Proof.
  intros Hin.
  exact (recorded_scan (upper upper_char text) section_patterns (len text)
           pattern section_patterns_nodup Hin).
Qed.

(** C2. For every text and every header of the vocabulary, the detector
    probes the needles header-colon, header-newline, header-space in that
    order against the upper-cased text; the first needle that occurs
    decides, at its leftmost occurrence, and yields exactly one span, which
    starts one past the index found; a header none of whose needles occurs
    yields no span. *)
Theorem detect_sections_probe (upper_char : N -> str) (text : str)
    (pattern : string) :
  pattern ∈ section_patterns ->
  let u := upper upper_char text in
  (forall i : nat,
      leftmost (needle_colon pattern) u i ->
      recorded upper_char text pattern [Z.of_nat i + 1]) /\
  (absent (needle_colon pattern) u ->
   forall i : nat,
      leftmost (needle_newline pattern) u i ->
      recorded upper_char text pattern [Z.of_nat i + 1]) /\
  (absent (needle_colon pattern) u ->
   absent (needle_newline pattern) u ->
   forall i : nat,
      leftmost (needle_space pattern) u i ->
      recorded upper_char text pattern [Z.of_nat i + 1]) /\
  (absent (needle_colon pattern) u ->
   absent (needle_newline pattern) u ->
   absent (needle_space pattern) u ->
   recorded upper_char text pattern []).
Proof.
  intros Hin u.
  pose proof (recorded_first_found upper_char text pattern Hin) as R.
  fold u in R. unfold search_patterns in R.
  split; [|split; [|split]].
  - intros i Hi. rewrite (first_found_here _ _ _ _ Hi) in R. exact R.
  - intros Hc i Hi.
    rewrite (first_found_skip _ _ _ Hc), (first_found_here _ _ _ _ Hi) in R.
    exact R.
  - intros Hc Hn i Hi.
    rewrite (first_found_skip _ _ _ Hc), (first_found_skip _ _ _ Hn),
      (first_found_here _ _ _ _ Hi) in R.
    exact R.
  - intros Hc Hn Hs.
    rewrite (first_found_skip _ _ _ Hc), (first_found_skip _ _ _ Hn),
      (first_found_skip _ _ _ Hs) in R.
    exact R.
Qed.

(** ** Where a span can start *)

(** Every needle is a newline, the header, and one more character. *)
Lemma search_patterns_shape (pattern : string) (search : str) :
  search ∈ search_patterns pattern ->
  exists c : N, search = nl :: lit pattern ++ [c].
Proof.
  unfold search_patterns. rewrite !elem_of_cons, elem_of_nil.
  intros [-> | [-> | [-> | []]]]; eexists; reflexivity.
Qed.

Lemma occurs_after_newline (pattern : string) (c : N) (u : str) (k : nat) :
  occurs_at (nl :: lit pattern ++ [c]) u k ->
  occurs_at (lit pattern) u (S k) /\ (k + 2 <= length u)%nat.
Proof.
  intros H. split.
  - destruct H as (pre & post & -> & <-).
    exists (pre ++ [nl]), (c :: post). split.
    + simpl. rewrite <- !app_assoc. reflexivity.
    + rewrite length_app. simpl. lia.
  - apply occurs_at_bound in H. simpl in H. rewrite length_app in H.
    simpl in H. lia.
Qed.

(** A tentative span starts where its header occurs, after a newline. *)
Lemma tentative_span_start (u : str) (pats : list string) (t : TentativeSpan) :
  t ∈ scan_patterns u pats ->
  exists k : nat,
    t_startIndex t = Z.of_nat (S k) /\
    occurs_at (lit (t_name t)) u (S k) /\ (S k < length u)%nat.
Proof.
  intros Ht. destruct (scan_patterns_elem _ _ _ Ht) as (idx & Hff & Hst).
  destruct (first_found_some _ _ _ Hff) as (search & k & Hin & -> & Ho & _).
  destruct (search_patterns_shape _ _ Hin) as [c ->].
  destruct (occurs_after_newline _ _ _ _ Ho) as [Ho' Hlen].
  exists k. split; [lia|]. split; [exact Ho' | lia].
Qed.

Lemma add_end_index_elem (n : Z) (l : list TentativeSpan) (s : SectionSpan) :
  s ∈ add_end_index n l ->
  exists (i : nat) (t : TentativeSpan),
    l !! i = Some t /\ name s = t_name t /\
    startIndex s = t_startIndex t /\
    endIndex s = from_option t_startIndex n (l !! S i).
Proof.
  intros Hs. apply list_elem_of_lookup in Hs as [i Hi].
  rewrite add_end_index_lookup in Hi.
  destruct (l !! i) as [t|] eqn:E; [|discriminate].
  injection Hi as <-. exists i, t. repeat split. exact E.
Qed.

Lemma sections_elem (u : str) (pats : list string) (n : Z) (s : SectionSpan) :
  s ∈ add_end_index n (sort_spans (scan_patterns u pats)) ->
  exists k : nat,
    startIndex s = Z.of_nat (S k) /\ occurs_at (lit (name s)) u (S k).
Proof.
  intros Hs. destruct (add_end_index_elem _ _ _ Hs) as (i & t & Hi & Hn & Hst & _).
  apply list_elem_of_lookup_2 in Hi.
  rewrite (sort_spans_perm (scan_patterns u pats)) in Hi.
  destruct (tentative_span_start _ _ _ Hi) as (k & Hk & Ho & _).
  exists k. rewrite Hn, Hst. split; [exact Hk | exact Ho].
Qed.

Lemma detect_sections_elem (upper_char : N -> str) (text : str)
    (s : SectionSpan) :
  s ∈ detect_sections upper_char text ->
  exists k : nat,
    startIndex s = Z.of_nat (S k) /\
    occurs_at (lit (name s)) (upper upper_char text) (S k).
Proof.
  exact (sections_elem (upper upper_char text) section_patterns (len text) s).
Qed.

(** C7. A header that occurs in the (case-folded) text at position 0 only,
    where no newline precedes it, is not matched: the detector returns no
    span under its name, since every needle begins with a newline. *)
Theorem header_at_start_unmatched (upper_char : N -> str) (text : str)
    (pattern : string) :
  (forall i : nat,
      occurs_at (lit pattern) (upper upper_char text) i -> i = 0%nat) ->
  forall s : SectionSpan,
    s ∈ detect_sections upper_char text -> name s <> pattern.
Proof.
  intros Honly s Hs Hname.
  destruct (detect_sections_elem _ _ _ Hs) as (k & _ & Ho).
  rewrite Hname in Ho. apply Honly in Ho. discriminate.
Qed.

(** When upper-casing keeps the length of the text, every span lies within
    the text and starts after index 0. *)
Lemma sections_bounds (u : str) (pats : list string) (n : Z)
    (s : SectionSpan) :
  Z.of_nat (length u) = n ->
  s ∈ add_end_index n (sort_spans (scan_patterns u pats)) ->
  1 <= startIndex s /\ startIndex s <= endIndex s /\ endIndex s <= n.
Proof.
  intros Hlen Hs.
  set (l := sort_spans (scan_patterns u pats)) in *.
  assert (Hb : forall t, t ∈ l -> 1 <= t_startIndex t < n).
  { intros t Ht. unfold l in Ht. rewrite sort_spans_perm in Ht.
    destruct (tentative_span_start _ _ _ Ht) as (k & Hk & _ & Hlt).
    rewrite Hk. lia. }
  destruct (add_end_index_elem _ _ _ Hs) as (i & t & Hi & _ & Hst & Hend).
  rewrite Hst, Hend.
  pose proof (Hb t (list_elem_of_lookup_2 _ _ _ Hi)) as Ht.
  destruct (l !! S i) as [t'|] eqn:E; simpl.
  - pose proof (Hb t' (list_elem_of_lookup_2 _ _ _ E)) as Ht'.
    pose proof (strongly_sorted_lookup l i (S i) t t'
                  (sort_spans_sorted _) ltac:(lia) Hi E) as Hle.
    unfold start_le in Hle. lia.
  - lia.
Qed.

Lemma detect_sections_bounds (upper_char : N -> str) (text : str) :
  length (upper upper_char text) = length text ->
  forall s : SectionSpan,
    s ∈ detect_sections upper_char text ->
    1 <= startIndex s /\ startIndex s <= endIndex s /\ endIndex s <= len text.
Proof.
  intros Hlen s.
  apply (sections_bounds (upper upper_char text) section_patterns (len text) s).
  unfold len. rewrite Hlen. reflexivity.
Qed.

Lemma occurs_at_occurrences (sub s : str) (i k : nat) :
  occurs_at sub s k -> (i + k)%nat ∈ occurrences_from sub s i.
Proof.
  revert i k. induction s as [|c s IH]; intros i k H.
  - destruct k as [|k]; [|destruct (occurs_at_nil_succ _ _ H)].
    apply occurs_at_zero in H. simpl. rewrite H, Nat.add_0_r. left.
  - destruct k as [|k].
    + apply occurs_at_zero in H. cbn [occurrences_from]. rewrite H, Nat.add_0_r. left.
    + apply occurs_at_succ in H. cbn [occurrences_from].
      apply elem_of_app. right.
      replace (i + S k)%nat with (S i + k)%nat by lia. apply IH, H.
Qed.

Lemma leftmost_of_find (sub s : str) (k : nat) :
  find s sub = Z.of_nat k -> leftmost sub s k.
Proof.
  intros H. destruct (find_found sub s) as (k' & Hk' & Hl); [lia|].
  assert (k = k') by lia. subst k'. exact Hl.
Qed.

Example detect_sections_stable_note :
  detect_sections upper_char_latin1 stable_note =
  [ {| name := "ASSESSMENT"; startIndex := 1; detected := true;
       endIndex := 32 |};
    {| name := "PLAN"; startIndex := 32; detected := true;
       endIndex := 61 |} ].
Proof. vm_compute. reflexivity. Qed.

(** Matching is case-insensitive, and a header that is a prefix of another
    yields a span of length zero. *)
Example detect_sections_overlap :
  detect_sections upper_char_latin1 (nl :: lit "Assessment and Plan: rest") =
  [ {| name := "ASSESSMENT"; startIndex := 1; detected := true;
       endIndex := 1 |};
    {| name := "ASSESSMENT AND PLAN"; startIndex := 1; detected := true;
       endIndex := 26 |} ].
Proof. vm_compute. reflexivity. Qed.

(** A header that recurs yields one span, at its first occurrence; a
    later needle serves when the earlier ones are absent. *)
Example detect_sections_recurring :
  detect_sections upper_char_latin1
    (nl :: lit "PLAN: rest" ++ nl :: lit "PLAN: again" ++
     nl :: lit "LABS" ++ [nl]) =
  [ {| name := "PLAN"; startIndex := 1; detected := true; endIndex := 24 |};
    {| name := "LABS"; startIndex := 24; detected := true; endIndex := 29 |} ].
Proof. vm_compute. reflexivity. Qed.

Lemma detect_sections_probe_witness :
  "PLAN"%string ∈ section_patterns /\
  leftmost (needle_colon "PLAN") (upper upper_char_latin1 stable_note) 31 /\
  recorded upper_char_latin1 stable_note "PLAN" [32].
Proof.
  assert (Hin : "PLAN"%string ∈ section_patterns).
  { apply (bool_decide_unpack _). vm_compute. exact I. }
  assert (Hl : leftmost (needle_colon "PLAN")
                 (upper upper_char_latin1 stable_note) 31).
  { apply leftmost_of_find. vm_compute. reflexivity. }
  split; [exact Hin|]. split; [exact Hl|].
  exact (proj1 (detect_sections_probe upper_char_latin1 stable_note "PLAN" Hin)
           31%nat Hl).
Defined.

Lemma header_at_start_unmatched_witness :
  occurs_at (lit "PLAN") (upper upper_char_latin1 headed_note) 0 /\
  forall s : SectionSpan,
    s ∈ detect_sections upper_char_latin1 headed_note -> name s <> "PLAN"%string.
Proof.
  split.
  - apply occurs_at_zero. vm_compute. reflexivity.
  - apply (header_at_start_unmatched upper_char_latin1 headed_note "PLAN").
    intros i H. apply (occurs_at_occurrences _ _ 0) in H.
    vm_compute in H. apply list_elem_of_singleton in H. exact H.
Defined.

(** C10. On a text that upper-casing lengthens, the span found starts past
    the end of the text and ends before it starts. *)
Theorem detect_sections_sharp_s :
  len sharp_s_note = 13 /\
  detect_sections upper_char_latin1 sharp_s_note =
  [ {| name := "PLAN"; startIndex := 15; detected := true; endIndex := 13 |} ].
Proof. split; vm_compute; reflexivity. Qed.

(** ** Runs of the primary pipeline *)

Ltac unfold_pipeline :=
  unfold run_parse_pdf, try_block, extraction_stage, assembly_stage, bind,
    open_document, close_document, update, read, call, when, ret,
    initial_machine.

Lemma extraction_stage_open_fails (w : World) (input_path : str) (e : exn) :
  fitz_open w input_path = Raises e ->
  extraction_stage w input_path (initial_machine w) =
  (Raises e, initial_machine w).
Proof. intros H. unfold_pipeline. rewrite H. reflexivity. Qed.

Lemma extraction_stage_pages_fail (w : World) (input_path : str)
    (doc : Document) (e : exn) :
  fitz_open w input_path = Returns doc ->
  extract_pages 0 (doc_pages doc) [] [] = Raises e ->
  extraction_stage w input_path (initial_machine w) =
  (Raises e,
   {| result := after_open w doc; doc_opened := true; doc_closed := false |}).
Proof.
  intros H1 H2. unfold_pipeline. unfold after_open. rewrite H1.
  cbn [result doc_opened doc_closed].
  destruct (metadata_truthy (doc_metadata doc));
    cbn [result doc_opened doc_closed]; rewrite H2; reflexivity.
Qed.

Lemma extraction_stage_hash_fails (w : World) (input_path : str)
    (doc : Document) (extracted : list str * list TableRecord) (e : exn) :
  fitz_open w input_path = Returns doc ->
  extract_pages 0 (doc_pages doc) [] [] = Returns extracted ->
  compute_hash (join [nl; nl] (fst extracted)) = Raises e ->
  extraction_stage w input_path (initial_machine w) =
  (Raises e,
   {| result := after_pages w doc extracted; doc_opened := true;
      doc_closed := false |}).
Proof.
  intros H1 H2 H3. unfold_pipeline. unfold after_pages, after_open. rewrite H1.
  cbn [result doc_opened doc_closed].
  destruct (metadata_truthy (doc_metadata doc));
    cbn [result doc_opened doc_closed]; rewrite H2;
    cbn [result doc_opened doc_closed]; rewrite H3; reflexivity.
Qed.

Lemma extraction_stage_completes (w : World) (input_path : str)
    (doc : Document) (extracted : list str * list TableRecord) (h : str) :
  fitz_open w input_path = Returns doc ->
  extract_pages 0 (doc_pages doc) [] [] = Returns extracted ->
  compute_hash (join [nl; nl] (fst extracted)) = Returns h ->
  extraction_stage w input_path (initial_machine w) =
  (Returns (join [nl; nl] (fst extracted)),
   {| result := after_extraction w doc extracted h; doc_opened := true;
      doc_closed := false |}).
Proof.
  intros H1 H2 H3. unfold_pipeline.
  unfold after_extraction, after_pages, after_open. rewrite H1.
  cbn [result doc_opened doc_closed].
  destruct (metadata_truthy (doc_metadata doc));
    cbn [result doc_opened doc_closed]; rewrite H2;
    cbn [result doc_opened doc_closed]; rewrite H3; reflexivity.
Qed.

(** The assembler never raises: it appends the warnings, closes the
    document and sets the flag. *)
Lemma assembly_stage_run (full_text : str) (m : Machine) :
  text (result m) = full_text ->
  assembly_stage full_text m =
  (Returns tt,
   {| result := set_success true (with_warnings (result m));
      doc_opened := doc_opened m; doc_closed := true |}).
Proof.
  intros <-. unfold assembly_stage, with_warnings, bind, close_document,
    update, read, when, ret.
  destruct (len (strip (text (result m))) <? 100);
    cbn [result doc_opened doc_closed pageCount append_warning];
    destruct (100 <? pageCount (result m)); reflexivity.
Qed.

(** The text held by the result dictionary when the extraction stage
    returns is the text it returns. *)
Lemma extraction_stage_cases (w : World) (input_path : str) :
  (exists e, fitz_open w input_path = Raises e /\
     extraction_stage w input_path (initial_machine w) =
     (Raises e, initial_machine w)) \/
  (exists doc, fitz_open w input_path = Returns doc /\
     ((exists e, extract_pages 0 (doc_pages doc) [] [] = Raises e /\
         extraction_stage w input_path (initial_machine w) =
         (Raises e, {| result := after_open w doc; doc_opened := true;
                       doc_closed := false |})) \/
      (exists extracted,
         extract_pages 0 (doc_pages doc) [] [] = Returns extracted /\
         ((exists e,
             compute_hash (join [nl; nl] (fst extracted)) = Raises e /\
             extraction_stage w input_path (initial_machine w) =
             (Raises e, {| result := after_pages w doc extracted;
                           doc_opened := true; doc_closed := false |})) \/
          (exists h,
             compute_hash (join [nl; nl] (fst extracted)) = Returns h /\
             extraction_stage w input_path (initial_machine w) =
             (Returns (join [nl; nl] (fst extracted)),
              {| result := after_extraction w doc extracted h;
                 doc_opened := true; doc_closed := false |})))))).
Proof.
  destruct (fitz_open w input_path) as [doc|e] eqn:H1.
  - right. exists doc. split; [reflexivity|].
    destruct (extract_pages 0 (doc_pages doc) [] []) as [extracted|e] eqn:H2.
    + right. exists extracted. split; [reflexivity|].
      destruct (compute_hash (join [nl; nl] (fst extracted))) as [h|e] eqn:H3.
      * right. exists h. split; [reflexivity|].
        apply extraction_stage_completes; assumption.
      * left. exists e. split; [reflexivity|].
        apply extraction_stage_hash_fails; assumption.
    + left. exists e. split; [reflexivity|].
      apply extraction_stage_pages_fail; assumption.
  - left. exists e. split; [reflexivity|].
    apply extraction_stage_open_fails; assumption.
Qed.

Lemma extraction_stage_returns (w : World) (input_path : str)
    (full_text : str) (m : Machine) :
  extraction_stage w input_path (initial_machine w) = (Returns full_text, m) ->
  exists doc extracted h,
    fitz_open w input_path = Returns doc /\
    extract_pages 0 (doc_pages doc) [] [] = Returns extracted /\
    compute_hash (join [nl; nl] (fst extracted)) = Returns h /\
    full_text = join [nl; nl] (fst extracted) /\
    m = {| result := after_extraction w doc extracted h; doc_opened := true;
           doc_closed := false |}.
Proof.
  intros H.
  destruct (extraction_stage_cases w input_path)
    as [(e & _ & E) | (doc & H1 & [(e & _ & E) | (extracted & H2 &
         [(e & _ & E) | (h & H3 & E)])])];
    rewrite E in H; try discriminate.
  injection H as <- <-. exists doc, extracted, h. repeat split; assumption.
Qed.

Lemma run_parse_pdf_raises (w : World) (input_path : str) (e : exn)
    (m : Machine) :
  extraction_stage w input_path (initial_machine w) = (Raises e, m) ->
  run_parse_pdf w input_path =
  {| result := handle e (result m); doc_opened := doc_opened m;
     doc_closed := doc_closed m |}.
Proof.
  intros H. unfold run_parse_pdf, try_block, bind. rewrite H. reflexivity.
Qed.

Lemma run_parse_pdf_completes (w : World) (input_path : str)
    (full_text : str) (m : Machine) :
  extraction_stage w input_path (initial_machine w) = (Returns full_text, m) ->
  run_parse_pdf w input_path =
  {| result := set_success true (with_warnings (result m));
     doc_opened := true; doc_closed := true |}.
Proof.
  intros H.
  destruct (extraction_stage_returns _ _ _ _ H)
    as (doc & extracted & h & _ & _ & _ & -> & ->).
  unfold run_parse_pdf, try_block, bind. rewrite H.
  rewrite assembly_stage_run by reflexivity. reflexivity.
Qed.

Lemma handle_fields (e : exn) (r : ParseResult) :
  success (handle e r) = false /\ text (handle e r) = text r /\
  contentHash (handle e r) = contentHash r /\
  metadata (handle e r) = metadata r /\ pageCount (handle e r) = pageCount r.
Proof. destruct e; repeat split; reflexivity. Qed.

Lemma with_warnings_fields (r : ParseResult) :
  text (with_warnings r) = text r /\
  contentHash (with_warnings r) = contentHash r /\
  metadata (with_warnings r) = metadata r /\
  pageCount (with_warnings r) = pageCount r /\
  success (with_warnings r) = success r.
Proof.
  unfold with_warnings.
  destruct (len (strip (text r)) <? 100);
    cbn [pageCount append_warning];
    destruct (100 <? pageCount r); repeat split; reflexivity.
Qed.

Lemma with_warnings_list (r : ParseResult) :
  warnings (with_warnings r) =
  warnings r ++
  (if len (strip (text r)) <? 100 then [low_content_warning] else []) ++
  (if 100 <? pageCount r then [large_document_warning (pageCount r)] else []).
Proof.
  unfold with_warnings.
  destruct (len (strip (text r)) <? 100);
    cbn [pageCount append_warning];
    destruct (100 <? pageCount r); cbn [warnings append_warning];
    rewrite <- ?app_assoc, ?app_nil_r; reflexivity.
Qed.

Lemma after_open_fields (w : World) (doc : Document) :
  text (after_open w doc) = [] /\ contentHash (after_open w doc) = [] /\
  warnings (after_open w doc) = [] /\
  pageCount (after_open w doc) = Z.of_nat (length (doc_pages doc)) /\
  metadata (after_open w doc) =
    if metadata_truthy (doc_metadata doc)
    then pdf_metadata (default ∅ (doc_metadata doc)) else ∅.
Proof.
  unfold after_open.
  destruct (metadata_truthy (doc_metadata doc)); repeat split; reflexivity.
Qed.

(** A run, by the outcome of its extraction stage. *)
Lemma run_parse_pdf_cases (w : World) (input_path : str) :
  (exists e, fitz_open w input_path = Raises e /\
     run_parse_pdf w input_path =
     {| result := handle e (initial_result w); doc_opened := false;
        doc_closed := false |}) \/
  (exists doc, fitz_open w input_path = Returns doc /\
     ((exists e, extract_pages 0 (doc_pages doc) [] [] = Raises e /\
         run_parse_pdf w input_path =
         {| result := handle e (after_open w doc); doc_opened := true;
            doc_closed := false |}) \/
      (exists extracted,
         extract_pages 0 (doc_pages doc) [] [] = Returns extracted /\
         ((exists e,
             compute_hash (join [nl; nl] (fst extracted)) = Raises e /\
             run_parse_pdf w input_path =
             {| result := handle e (after_pages w doc extracted);
                doc_opened := true; doc_closed := false |}) \/
          (exists h,
             compute_hash (join [nl; nl] (fst extracted)) = Returns h /\
             run_parse_pdf w input_path =
             {| result := set_success true
                            (with_warnings (after_extraction w doc extracted h));
                doc_opened := true; doc_closed := true |}))))).
Proof.
  destruct (extraction_stage_cases w input_path)
    as [(e & H1 & E) | (doc & H1 & [(e & H2 & E) | (extracted & H2 &
         [(e & H3 & E) | (h & H3 & E)])])].
  - left. exists e. split; [exact H1|]. apply (run_parse_pdf_raises _ _ _ _ E).
  - right. exists doc. split; [exact H1|]. left. exists e. split; [exact H2|].
    apply (run_parse_pdf_raises _ _ _ _ E).
  - right. exists doc. split; [exact H1|]. right. exists extracted.
    split; [exact H2|]. left. exists e. split; [exact H3|].
    apply (run_parse_pdf_raises _ _ _ _ E).
  - right. exists doc. split; [exact H1|]. right. exists extracted.
    split; [exact H2|]. right. exists h. split; [exact H3|].
    apply (run_parse_pdf_completes _ _ _ _ E).
Qed.

(** ** Content hash *)

Lemma compute_hash_returns (content h : str) :
  compute_hash content = Returns h ->
  exists bytes, utf8_encode content = Some bytes /\ h = Sha256.hexdigest bytes.
Proof.
  unfold compute_hash. destruct (utf8_encode content) as [bytes|]; [|discriminate].
  intros H. injection H as <-. exists bytes. split; reflexivity.
Qed.

Lemma compute_hash_raises (content : str) (e : exn) :
  compute_hash content = Raises e -> utf8_encode content = None.
Proof.
  unfold compute_hash. destruct (utf8_encode content); [discriminate | reflexivity].
Qed.

(** The hasher agrees with [hashlib] on a short text, on a text that
    fills more than one block and on a text outside ASCII. *)
Example compute_hash_abc :
  compute_hash (lit "abc") =
  Returns (lit "ba7816bf8f01cfea414140de5dae2223b00361a396177a9cb410ff61f20015ad").
Proof. vm_compute. reflexivity. Qed.

Example compute_hash_two_blocks :
  compute_hash (repeat 97%N 70) =
  Returns (lit "6bd5e5034855a11241f0dee8fc72850ffd9955b28347a86428b5fa19119f6ad0").
Proof. vm_compute. reflexivity. Qed.

Example compute_hash_unicode :
  utf8_encode [233%N; 8364%N; 128512%N] =
    Some [195; 169; 226; 130; 172; 240; 159; 152; 128] /\
  compute_hash [233%N; 8364%N; 128512%N] =
  Returns (lit "df9226927fd572c1ee66eec85de1bb139497614899f36e4e90474cb71f6ef9d0").
Proof. split; vm_compute; reflexivity. Qed.

(** C3 (as amended). The content hash of a run that succeeds is the SHA-256
    hex digest of the UTF-8 encoding of the returned text, the empty text
    included; so is the content hash of any run whose text is not empty and
    can be encoded; and the content hash of a run that fails is the empty
    string. *)
Theorem content_hash_of_run (w : World) (input_path : str) :
  let r := parse_pdf w input_path in
  (success r = true ->
   exists bytes, utf8_encode (text r) = Some bytes /\
                 contentHash r = Sha256.hexdigest bytes) /\
  (forall bytes, text r <> [] -> utf8_encode (text r) = Some bytes ->
                 contentHash r = Sha256.hexdigest bytes) /\
  (success r = false -> contentHash r = []).
Proof.
  intros r. subst r. unfold parse_pdf.
  destruct (run_parse_pdf_cases w input_path)
    as [(e & _ & E) | (doc & _ & [(e & _ & E) | (extracted & _ &
         [(e & H3 & E) | (h & H3 & E)])])];
    rewrite E; cbn [result].
  - destruct (handle_fields e (initial_result w)) as (-> & -> & -> & _).
    cbn [text contentHash initial_result].
    split; [discriminate|]. split; [congruence | reflexivity].
  - destruct (handle_fields e (after_open w doc)) as (-> & -> & -> & _).
    destruct (after_open_fields w doc) as (-> & -> & _).
    split; [discriminate|]. split; [congruence | reflexivity].
  - destruct (handle_fields e (after_pages w doc extracted)) as (-> & -> & -> & _).
    apply compute_hash_raises in H3.
    assert (Ht : text (after_pages w doc extracted) = join [nl; nl] (fst extracted))
      by reflexivity.
    assert (Hh : contentHash (after_pages w doc extracted) = []).
    { unfold after_pages. cbn [contentHash set_tables set_text].
      apply after_open_fields. }
    rewrite Ht, Hh.
    split; [discriminate|]. split; [congruence | reflexivity].
  - apply compute_hash_returns in H3 as (bytes & Hb & ->).
    cbn [success text contentHash set_success].
    destruct (with_warnings_fields (after_extraction w doc extracted
                                      (Sha256.hexdigest bytes)))
      as (-> & -> & _).
    assert (Ht : text (after_extraction w doc extracted (Sha256.hexdigest bytes))
                 = join [nl; nl] (fst extracted)) by reflexivity.
    assert (Hh : contentHash (after_extraction w doc extracted
                                (Sha256.hexdigest bytes))
                 = Sha256.hexdigest bytes) by reflexivity.
    rewrite Ht, Hh.
    split; [intros _; exists bytes; split; [exact Hb | reflexivity]|].
    split; [congruence | discriminate].
Qed.

(** The claim as stated fails twice over. A scanned document, from which
    extraction produces no text, succeeds with the digest of the empty
    byte string as its hash, not the empty string; and a text that UTF-8
    cannot encode is returned, not empty, with an empty hash. *)
Lemma content_hash_not_as_stated :
  (let r := parse_pdf (world_of [] true (Returns scanned_document)) job_input in
   success r = true /\ text r = [] /\
   contentHash r =
     lit "e3b0c44298fc1c149afbf4c8996fb92427ae41e4649b934ca495991b7852b855" /\
   contentHash r <> []) /\
  (let r := parse_pdf (world_of [] true (Returns surrogate_document)) job_input in
   text r <> [] /\ utf8_encode (text r) = None /\ contentHash r = []).
Proof.
  split.
  - vm_compute. repeat split; discriminate.
  - vm_compute. repeat split; discriminate.
Qed.

(** ** Document handle *)

(** Once a document is open, [close()] is reached exactly by the runs
    that succeed. *)
Lemma handle_closed_iff_success (w : World) (input_path : str) :
  let m := run_parse_pdf w input_path in
  doc_opened m = true ->
  (doc_closed m = true <-> success (result m) = true).
Proof.
  intros m. subst m.
  destruct (run_parse_pdf_cases w input_path)
    as [(e & _ & E) | (doc & _ & [(e & _ & E) | (extracted & _ &
         [(e & H3 & E) | (h & H3 & E)])])];
    rewrite E; cbn [result doc_opened doc_closed]; intros Ho;
    try discriminate;
    try (rewrite (proj1 (handle_fields e _)); split; discriminate).
  split; reflexivity.
Qed.

(** C4. A run whose document opens and whose page then fails to yield its
    text returns to the caller with the handle still open. *)
Theorem handle_left_open :
  let m := run_parse_pdf
             (world_of [] true (Returns unreadable_page_document)) job_input in
  doc_opened m = true /\ doc_closed m = false /\
  success (result m) = false /\
  warnings (result m) = [lit "Unexpected error: cannot load page"].
Proof. vm_compute. repeat split. Qed.

(** ** Metadata *)

Lemma pdf_metadata_dom (m : gmap string pyvalue) :
  dom (pdf_metadata m) =
  ({[ "title"; "author"; "subject"; "creator"; "producer"; "creationDate";
      "modDate" ]} : gset string)%string.
Proof.
  unfold pdf_metadata. rewrite dom_list_to_map_L. cbn [fmap list_fmap fst].
  cbn [list_to_set]. set_solver.
Qed.

Lemma pdf_metadata_lookup (m : gmap string pyvalue) (k : string) :
  k ∈ ({[ "title"; "author"; "subject"; "creator"; "producer"; "creationDate";
          "modDate" ]} : gset string)%string ->
  pdf_metadata m !! k = Some (default (PyStr []) (m !! k)).
Proof.
  intros Hk. unfold pdf_metadata, dict_get.
  repeat (apply elem_of_union in Hk as [Hk | Hk]);
    apply elem_of_singleton in Hk; subst k; reflexivity.
Qed.

Lemma run_metadata (w : World) (input_path : str) (doc : Document) :
  fitz_open w input_path = Returns doc ->
  metadata (parse_pdf w input_path) =
  if metadata_truthy (doc_metadata doc)
  then pdf_metadata (default ∅ (doc_metadata doc)) else ∅.
Proof.
  intros Hopen. unfold parse_pdf.
  destruct (run_parse_pdf_cases w input_path)
    as [(e & H1 & E) | (doc' & H1 & [(e & _ & E) | (extracted & _ &
         [(e & H3 & E) | (h & H3 & E)])])];
    rewrite H1 in Hopen; try discriminate; injection Hopen as ->;
    rewrite E; cbn [result].
  - rewrite (proj1 (proj2 (proj2 (proj2 (handle_fields e _))))).
    apply after_open_fields.
  - rewrite (proj1 (proj2 (proj2 (proj2 (handle_fields e _))))).
    unfold after_pages. cbn [metadata set_tables set_text].
    apply after_open_fields.
  - cbn [metadata set_success].
    rewrite (proj1 (proj2 (proj2 (with_warnings_fields _)))).
    unfold after_extraction, after_pages.
    cbn [metadata set_sections set_contentHash set_tables set_text].
    apply after_open_fields.
Qed.

(** C5 (as amended). When the document opens and its metadata is a
    dictionary that is not empty, the metadata of the result has exactly
    the seven keys, each mapped to the value found upstream under that key
    and to the empty string when there is none, hence to a string whenever
    the upstream values are strings; when the document has no metadata, or
    an empty dictionary, the metadata of the result is empty. *)
Theorem metadata_of_opened_document (w : World) (input_path : str)
    (doc : Document) :
  fitz_open w input_path = Returns doc ->
  let r := parse_pdf w input_path in
  (forall m : gmap string pyvalue,
      doc_metadata doc = Some m -> m <> ∅ ->
      dom (metadata r) =
        ({[ "title"; "author"; "subject"; "creator"; "producer";
            "creationDate"; "modDate" ]} : gset string)%string /\
      (forall k : string,
          k ∈ dom (metadata r) ->
          metadata r !! k = Some (default (PyStr []) (m !! k))) /\
      ((forall k v, m !! k = Some v -> exists s, v = PyStr s) ->
       forall k : string,
         k ∈ dom (metadata r) -> exists s, metadata r !! k = Some (PyStr s))) /\
  (doc_metadata doc = None \/ doc_metadata doc = Some ∅ -> metadata r = ∅).
Proof.
  intros Hopen r. subst r. rewrite (run_metadata w input_path doc Hopen).
  split.
  - intros m Hm Hne. rewrite Hm. cbn [metadata_truthy default].
    rewrite bool_decide_eq_true_2 by exact Hne.
    split; [apply pdf_metadata_dom|]. split.
    + intros k Hk. rewrite pdf_metadata_dom in Hk.
      apply pdf_metadata_lookup, Hk.
    + intros Hstr k Hk. rewrite pdf_metadata_dom in Hk.
      pose proof (pdf_metadata_lookup m k Hk) as Hl.
      destruct (m !! k) as [v|] eqn:E; cbn [default] in Hl.
      * destruct (Hstr k v E) as [s ->]. exists s. exact Hl.
      * exists []. exact Hl.
  - intros [-> | ->]; cbn [metadata_truthy].
    + reflexivity.
    + rewrite bool_decide_eq_false_2 by (intros H; apply H; reflexivity).
      reflexivity.
Qed.

Lemma metadata_of_opened_document_witness :
  let r := parse_pdf (world_of [] true (Returns short_document)) job_input in
  metadata r !! "title"%string = Some (PyStr (lit "Discharge letter")) /\
  metadata r !! "author"%string = Some (PyStr []).
Proof.
  intros r.
  destruct (metadata_of_opened_document
              (world_of [] true (Returns short_document)) job_input
              short_document eq_refl) as [H _].
  destruct (H titled eq_refl) as (Hdom & Hget & _).
  { apply (bool_decide_unpack _). vm_compute. exact I. }
  fold r in Hdom, Hget. split.
  - rewrite Hget; [reflexivity|]. rewrite Hdom. set_solver.
  - rewrite Hget; [reflexivity|]. rewrite Hdom. set_solver.
Defined.

(** The claim as stated fails on a document without metadata: the run
    reaches metadata extraction and returns the empty mapping, which has
    no key [title]. *)
Lemma metadata_not_as_stated :
  let w := world_of [] true (Returns bare_document) in
  fitz_open w job_input = Returns bare_document /\
  success (parse_pdf w job_input) = true /\
  metadata (parse_pdf w job_input) = ∅ /\
  metadata (parse_pdf w job_input) !! "title"%string = None.
Proof. vm_compute. repeat split. Qed.

(** ** Warnings *)

Lemma low_not_large (n : Z) : low_content_warning <> large_document_warning n.
Proof.
  intros H. apply (f_equal (hd 0%N)) in H. vm_compute in H. discriminate.
Qed.

(** A run succeeds exactly when its extraction stage returns. *)
Lemma success_iff_extraction_completes (w : World) (input_path : str) :
  success (parse_pdf w input_path) = true <->
  exists full_text m,
    extraction_stage w input_path (initial_machine w) = (Returns full_text, m).
Proof.
  unfold parse_pdf. split.
  - destruct (extraction_stage w input_path (initial_machine w))
      as [[full_text|e] m] eqn:E.
    + intros _. exists full_text, m. reflexivity.
    + rewrite (run_parse_pdf_raises _ _ _ _ E). cbn [result].
      rewrite (proj1 (handle_fields e _)). discriminate.
  - intros (full_text & m & E).
    rewrite (run_parse_pdf_completes _ _ _ _ E). reflexivity.
Qed.

(** C8. When the extraction stage of a run completes, the warnings of the
    result are the low-content warning, present exactly when the stripped
    text is shorter than 100 characters, followed by the large-document
    warning, which spells out the page count and is present exactly when
    that count exceeds 100; and the run succeeds whichever warnings it
    carries. *)
Theorem warnings_of_completed_run (w : World) (input_path : str)
    (full_text : str) (m : Machine) :
  extraction_stage w input_path (initial_machine w) = (Returns full_text, m) ->
  let r := parse_pdf w input_path in
  warnings r =
    (if len (strip (text r)) <? 100
     then [lit "Document appears to have very little text content"]
     else []) ++
    (if 100 <? pageCount r
     then [lit "Large document with " ++ str_of_int (pageCount r) ++ lit " pages"]
     else []) /\
  (low_content_warning ∈ warnings r <-> len (strip (text r)) < 100) /\
  (large_document_warning (pageCount r) ∈ warnings r <-> 100 < pageCount r) /\
  success r = true /\ text r = full_text.
Proof.
  intros E r. subst r. unfold parse_pdf.
  rewrite (run_parse_pdf_completes _ _ _ _ E). cbn [result].
  destruct (extraction_stage_returns _ _ _ _ E)
    as (doc & extracted & h & _ & _ & _ & -> & ->).
  cbn [result]. set (r0 := after_extraction w doc extracted h).
  assert (Hw0 : warnings r0 = []).
  { unfold r0, after_extraction, after_pages.
    cbn [warnings set_sections set_contentHash set_tables set_text].
    apply after_open_fields. }
  assert (Ht0 : text r0 = join [nl; nl] (fst extracted)) by reflexivity.
  cbn [warnings text pageCount success set_success].
  destruct (with_warnings_fields r0) as (-> & _ & _ & -> & _).
  rewrite with_warnings_list, Hw0. cbn [app].
  fold low_content_warning. fold (large_document_warning (pageCount r0)).
  split; [reflexivity|]. split; [|split; [|split; [reflexivity | exact Ht0]]].
  - destruct (Z.ltb_spec (len (strip (text r0))) 100) as [Hlt|Hge].
    + split; [intros _; exact Hlt|]. intros _. left.
    + split; [|lia]. intros Hin. cbn [app] in Hin.
      destruct (100 <? pageCount r0).
      * apply list_elem_of_singleton in Hin.
        destruct (low_not_large _ Hin).
      * apply elem_of_nil in Hin as [].
  - destruct (Z.ltb_spec 100 (pageCount r0)) as [Hlt|Hge].
    + split; [intros _; exact Hlt|]. intros _.
      apply elem_of_app. right. left.
    + split; [|lia]. intros Hin. rewrite app_nil_r in Hin.
      destruct (len (strip (text r0)) <? 100).
      * apply list_elem_of_singleton in Hin. symmetry in Hin.
        destruct (low_not_large _ Hin).
      * apply elem_of_nil in Hin as [].
Qed.

Lemma warnings_of_completed_run_witness :
  let r := parse_pdf (world_of [] true (Returns short_document)) job_input in
  warnings r = [lit "Document appears to have very little text content"] /\
  success r = true /\
  text r = lit "--- Page 1 ---" ++ nl :: lit "Hello".
Proof.
  intros r.
  destruct (extraction_stage (world_of [] true (Returns short_document))
              job_input
              (initial_machine (world_of [] true (Returns short_document))))
    as [[full_text|e] m] eqn:E.
  - destruct (warnings_of_completed_run _ _ _ _ E) as (Hw & _ & _ & Hs & Ht).
    fold r in Hw, Hs, Ht. split; [|split].
    + rewrite Hw. vm_compute. reflexivity.
    + exact Hs.
    + vm_compute. reflexivity.
  - vm_compute in E. discriminate.
Defined.

(** A document of 150 pages carries the warning that names the count, and
    succeeds. *)
Example large_document_run :
  let doc := {| doc_pages := repeat (text_page (lit "x")) 150;
                doc_metadata := Some titled |} in
  let r := parse_pdf (world_of [] true (Returns doc)) job_input in
  pageCount r = 150 /\ success r = true /\
  warnings r = [lit "Large document with 150 pages"].
Proof. vm_compute. repeat split. Qed.

(** ** Page markers *)

Lemma strip_prefix_newline (pre a r : str) :
  nl ∉ pre ->
  strip_prefix pre (a ++ nl :: r) = (fun x => x ++ nl :: r) <$> strip_prefix pre a.
Proof.
  revert a. induction pre as [|c pre IH]; intros a Hnl; [reflexivity|].
  apply not_elem_of_cons in Hnl as [Hc Hnl].
  destruct a as [|b a]; simpl.
  - destruct (N.eqb_spec c nl); [congruence | reflexivity].
  - destruct (c =? b)%N; [apply IH, Hnl | reflexivity].
Qed.

Lemma starts_with_newline (pre a r : str) :
  nl ∉ pre -> starts_with pre (a ++ nl :: r) = starts_with pre a.
Proof.
  revert a. induction pre as [|c pre IH]; intros a Hnl; [reflexivity|].
  apply not_elem_of_cons in Hnl as [Hc Hnl].
  destruct a as [|b a]; simpl.
  - destruct (N.eqb_spec c nl); [congruence | reflexivity].
  - rewrite IH by exact Hnl. reflexivity.
Qed.

Lemma skip_digits_newline (a r : str) :
  skip_digits (a ++ nl :: r) = skip_digits a ++ nl :: r.
Proof.
  induction a as [|c a IH]; [reflexivity|].
  simpl. destruct (is_digit c); [exact IH | reflexivity].
Qed.

Lemma marker_open_no_newline : nl ∉ marker_open.
Proof. apply (bool_decide_unpack _). vm_compute. exact I. Qed.

Lemma marker_close_no_newline : nl ∉ marker_close.
Proof. apply (bool_decide_unpack _). vm_compute. exact I. Qed.

(** A marker holds no newline: whether one starts a text is decided
    before the first newline. *)
Lemma marker_here_newline (a r : str) :
  marker_here (a ++ nl :: r) = marker_here a.
Proof.
  unfold marker_here.
  rewrite strip_prefix_newline by exact marker_open_no_newline.
  destruct (strip_prefix marker_open a) as [[|c x]|]; cbn [fmap option_fmap option_map app].
  - reflexivity.
  - rewrite skip_digits_newline, starts_with_newline
      by exact marker_close_no_newline. reflexivity.
  - reflexivity.
Qed.

Lemma count_markers_newline (a r : str) :
  count_markers (a ++ nl :: r) = (count_markers a + count_markers r)%nat.
Proof.
  induction a as [|c a IH].
  - reflexivity.
  - cbn [app count_markers]. rewrite IH.
    change (c :: a ++ nl :: r) with ((c :: a) ++ nl :: r).
    rewrite marker_here_newline. lia.
Qed.

Lemma uint_chars_digits (d : Decimal.uint) : Forall (fun c => is_digit c = true) (uint_chars d).
Proof. induction d; simpl; constructor; (reflexivity || assumption). Qed.

Lemma uint_chars_nonempty (d : Decimal.uint) : d <> Nil -> uint_chars d <> [].
Proof. destruct d; simpl; congruence. Qed.

(** The decimal rendering of a positive number: a digit, then digits. *)
Lemma str_of_int_positive (n : Z) :
  0 < n ->
  exists c ds, str_of_int n = c :: ds /\ is_digit c = true /\
               Forall (fun c => is_digit c = true) ds.
Proof.
  intros Hn. destruct n as [|p|p]; try lia. simpl.
  pose proof (uint_chars_digits (Pos.to_uint p)) as Hd.
  pose proof (uint_chars_nonempty _ (Unsigned.to_uint_nonnil p)) as Hne.
  destruct (uint_chars (Pos.to_uint p)) as [|c ds]; [congruence|].
  apply Forall_cons in Hd as [Hc Hd]. exists c, ds. repeat split; assumption.
Qed.

Lemma skip_digits_all (ds r : str) :
  Forall (fun c => is_digit c = true) ds -> skip_digits (ds ++ r) = skip_digits r.
Proof.
  induction 1 as [|c ds Hc _ IH]; [reflexivity|].
  simpl. rewrite Hc. exact IH.
Qed.

Lemma marker_here_digit (c : N) (s : str) :
  is_digit c = true -> marker_here (c :: s) = false.
Proof.
  intros Hc. unfold marker_here, marker_open. cbn [strip_prefix].
  destruct (N.eqb_spec 45 c) as [<-|_]; [discriminate | reflexivity].
Qed.

Lemma count_markers_digits (ds r : str) :
  Forall (fun c => is_digit c = true) ds ->
  count_markers (ds ++ r) = count_markers r.
Proof.
  induction 1 as [|c ds Hc _ IH]; [reflexivity|].
  cbn [app count_markers]. rewrite marker_here_digit by exact Hc. exact IH.
Qed.

(** A rendered marker counts once. *)
Lemma count_markers_page_marker (n : Z) :
  0 < n -> count_markers (page_marker n) = 1%nat.
Proof.
  intros Hn. unfold page_marker.
  destruct (str_of_int_positive n Hn) as (c & ds & -> & Hc & Hds).
  change (lit "--- Page ") with marker_open.
  change (lit " ---") with marker_close.
  unfold marker_open at 1.
  cbn [app count_markers].
  rewrite (marker_here_digit c) by exact Hc.
  rewrite count_markers_digits by exact Hds.
  replace (marker_here (45%N :: 45%N :: 45%N :: 32%N :: 80%N :: 97%N :: 103%N
                        :: 101%N :: 32%N :: c :: ds ++ marker_close)) with true.
  2:{ unfold marker_here, marker_open. cbn [strip_prefix N.eqb Pos.eqb].
      rewrite Hc, skip_digits_all by exact Hds. reflexivity. }
  reflexivity.
Qed.

(** ** Text extractor *)

Lemma numbered_from_cons (k : nat) (t : str) (texts : list str) :
  numbered_from k (t :: texts) =
  (if truthy t then [(k, t)] else []) ++ numbered_from (S k) texts.
Proof.
  unfold numbered_from. rewrite imap_cons. rewrite Nat.add_0_r.
  rewrite (imap_ext _ (fun i t => ((S k + i)%nat, t)) texts)
    by (intros i x _; simpl; f_equal; lia).
  destruct t as [|c t].
  - rewrite filter_cons_False by (simpl; congruence). reflexivity.
  - rewrite filter_cons_True by (simpl; congruence). reflexivity.
Qed.

(** The loop, on pages that all yield their text. *)
Lemma extract_pages_texts (pages : list Page) (texts : list str) (k : nat)
    (all_text : list str) (all_tables : list TableRecord) :
  Forall2 (fun pg t => get_text pg = Returns t) pages texts ->
  exists tables,
    extract_pages (Z.of_nat k) pages all_text all_tables =
    Returns (all_text ++ (chunk <$> numbered_from k texts), tables).
Proof.
  intros H. revert k all_text all_tables.
  induction H as [|pg t pages texts Hpg _ IH]; intros k all_text all_tables.
  - exists all_tables. simpl. rewrite app_nil_r. reflexivity.
  - cbn [extract_pages]. rewrite Hpg.
    replace (Z.of_nat k + 1) with (Z.of_nat (S k)) by lia.
    rewrite numbered_from_cons.
    destruct (IH (S k)
                (if truthy t then all_text ++ [render_page (Z.of_nat k) t]
                 else all_text)
                (all_tables ++
                 map (fun table => {| page := Z.of_nat (S k); data := table |})
                     (extract_tables pg))) as [tables Ht].
    exists tables. rewrite Ht. f_equal. f_equal.
    destruct (truthy t).
    + rewrite fmap_app, app_assoc. reflexivity.
    + reflexivity.
Qed.

Lemma count_markers_chunk (it : nat * str) :
  count_markers (chunk it) = S (count_markers it.2).
Proof.
  unfold chunk. rewrite count_markers_newline.
  rewrite count_markers_page_marker by lia. reflexivity.
Qed.

Lemma count_markers_join (chunks : list str) :
  count_markers (join [nl; nl] chunks) =
  foldr (fun c acc => (count_markers c + acc)%nat) 0%nat chunks.
Proof.
  induction chunks as [|c chunks IH]; [reflexivity|].
  destruct chunks as [|c' chunks].
  - simpl. lia.
  - change (join [nl; nl] (c :: c' :: chunks))
      with (c ++ nl :: nl :: join [nl; nl] (c' :: chunks)).
    rewrite count_markers_newline.
    change (nl :: join [nl; nl] (c' :: chunks))
      with ([] ++ nl :: join [nl; nl] (c' :: chunks)).
    rewrite count_markers_newline, IH. reflexivity.
Qed.

Lemma count_markers_chunks (k : nat) (texts : list str) :
  Forall (fun t => count_markers t = 0%nat) texts ->
  foldr (fun c acc => (count_markers c + acc)%nat) 0%nat
        (chunk <$> numbered_from k texts) =
  length (filter (fun t => t <> []) texts).
Proof.
  intros H. revert k. induction H as [|t texts Ht _ IH]; intros k.
  - reflexivity.
  - rewrite numbered_from_cons. destruct t as [|c t].
    + rewrite filter_cons_False by congruence. apply IH.
    + rewrite filter_cons_True by congruence.
      cbn [truthy app fmap list_fmap foldr length].
      rewrite count_markers_chunk, IH. cbn [snd]. rewrite Ht. reflexivity.
Qed.

Lemma run_text (w : World) (input_path : str) (doc : Document)
    (extracted : list str * list TableRecord) :
  fitz_open w input_path = Returns doc ->
  extract_pages 0 (doc_pages doc) [] [] = Returns extracted ->
  text (parse_pdf w input_path) = join [nl; nl] (fst extracted).
Proof.
  intros Hopen Hpages. unfold parse_pdf.
  destruct (run_parse_pdf_cases w input_path)
    as [(e & H1 & E) | (doc' & H1 & [(e & H2 & E) | (extracted' & H2 &
         [(e & H3 & E) | (h & H3 & E)])])];
    rewrite H1 in Hopen; try discriminate; injection Hopen as ->;
    rewrite H2 in Hpages; try discriminate; injection Hpages as ->;
    rewrite E; cbn [result].
  - rewrite (proj1 (proj2 (handle_fields e _))). reflexivity.
  - cbn [text set_success].
    rewrite (proj1 (with_warnings_fields _)). reflexivity.
Qed.

(** C6 (as amended). When every page yields its text, the text of the
    result is made of the pages whose text is not empty, in document
    order, each rendered as the marker of its 1-based position in the
    document, a newline and its text, the renderings being joined by two
    newlines; there are as many renderings as pages with text; and the
    number of page markers in the text equals the number of pages with
    text provided that no page text holds a marker of its own. *)
Theorem text_of_pages (w : World) (input_path : str) (doc : Document)
    (texts : list str) :
  fitz_open w input_path = Returns doc ->
  Forall2 (fun pg t => get_text pg = Returns t) (doc_pages doc) texts ->
  let r := parse_pdf w input_path in
  let rendered :=
    (fun it : nat * str => page_marker (Z.of_nat it.1 + 1) ++ nl :: it.2)
      <$> filter (fun it : nat * str => it.2 <> [])
                 (imap (fun i t => (i, t)) texts) in
  text r = join [nl; nl] rendered /\
  length rendered = length (filter (fun t => t <> []) texts) /\
  (Forall (fun t => count_markers t = 0%nat) texts ->
   count_markers (text r) = length (filter (fun t => t <> []) texts)).
Proof.
  intros Hopen Hpages r rendered.
  destruct (extract_pages_texts _ _ 0 [] [] Hpages) as [tables Hx].
  change (Z.of_nat 0) with 0 in Hx. cbn [app] in Hx.
  assert (Hr : rendered = chunk <$> numbered_from 0 texts) by reflexivity.
  assert (Ht : text r = join [nl; nl] rendered).
  { subst r. rewrite (run_text w input_path doc _ Hopen Hx), Hr. reflexivity. }
  split; [exact Ht|]. split.
  - rewrite Hr, length_fmap. clear. generalize 0%nat.
    induction texts as [|t texts IH]; intros k; [reflexivity|].
    rewrite numbered_from_cons. destruct t as [|c t].
    + rewrite filter_cons_False by congruence. apply IH.
    + rewrite filter_cons_True by congruence. cbn [truthy app length].
      rewrite IH. reflexivity.
  - intros Hclean. rewrite Ht, Hr, count_markers_join.
    apply count_markers_chunks, Hclean.
Qed.

Lemma text_of_pages_witness :
  let r := parse_pdf (world_of [] true (Returns three_page_document)) job_input in
  text r = lit "--- Page 1 ---" ++ nl :: lit "Intro" ++ nl :: nl ::
           lit "--- Page 3 ---" ++ nl :: lit "Body" /\
  count_markers (text r) = 2%nat.
Proof.
  intros r.
  assert (Hpages : Forall2 (fun pg t => get_text pg = Returns t)
                     (doc_pages three_page_document)
                     [lit "Intro"; []; lit "Body"]).
  { repeat constructor. }
  destruct (text_of_pages (world_of [] true (Returns three_page_document))
              job_input three_page_document _ eq_refl Hpages)
    as (Ht & _ & Hc).
  fold r in Ht, Hc. split.
  - rewrite Ht. vm_compute. reflexivity.
  - rewrite Hc; [vm_compute; reflexivity|].
    repeat constructor.
Defined.

(** The claim as stated fails on a page whose text is itself a marker
    line: one page has text, and the text of the result holds two
    markers. *)
Lemma marker_count_not_as_stated :
  let r := parse_pdf (world_of [] true (Returns marker_line_document)) job_input in
  Forall2 (fun pg t => get_text pg = Returns t)
    (doc_pages marker_line_document) [lit "--- Page 1 ---"] /\
  text r = lit "--- Page 1 ---" ++ nl :: lit "--- Page 1 ---" /\
  count_markers (text r) = 2%nat.
Proof.
  split; [repeat constructor|]. vm_compute. repeat split.
Qed.

(** ** Command line *)




(** A file of unknown type that cannot be parsed carries both warnings,
    and the program exits with code 1. *)
Example main_unknown_type :
  let w := world_of [lit "parse.py"; lit "/job/input.docx"; job_output] true
             (Raises (FileDataError (lit "Failed to open file"))) in
  exit_code (main w) = 1 /\
  warnings (parse_by_type w (lit "/job/input.docx")) =
  [ lit "PDF parsing error: Failed to open file";
    lit "Unknown file type, attempted PDF parsing" ].
Proof. vm_compute. repeat split. Qed.

(** * Further properties *)

(** ** Tables *)

Lemma collect_tables_good (good : list (list (list str)))
    (rest : list (outcome (list (list str)))) (acc : list (list (list str))) :
  collect_tables ((Returns <$> good) ++ rest) acc =
  collect_tables rest (acc ++ filter (fun t => t <> []) good).
Proof.
  revert acc. induction good as [|t good IH]; intros acc.
  - simpl. rewrite app_nil_r. reflexivity.
  - cbn [fmap list_fmap app collect_tables]. rewrite IH. destruct t as [|row t].
    + rewrite filter_cons_False by congruence. reflexivity.
    + rewrite filter_cons_True by congruence.
      cbn [truthy]. rewrite <- app_assoc. reflexivity.
Qed.

(** X1. The tables of a page are the non-empty extractions that precede the
    first failing one, in the order of the finder: a failure ends the
    collection without losing what was collected. *)
Theorem extract_tables_until_failure (p : Page)
    (good : list (list (list str))) (rest : list (outcome (list (list str)))) :
  find_tables p = Returns ((Returns <$> good) ++ rest) ->
  (rest = [] \/ exists e rest', rest = Raises e :: rest') ->
  extract_tables p = filter (fun t => t <> []) good.
Proof.
  intros Hf Hrest. unfold extract_tables. rewrite Hf, collect_tables_good.
  destruct Hrest as [-> | (e & rest' & ->)]; reflexivity.
Qed.

Lemma extract_tables_until_failure_witness :
  extract_tables
    {| get_text := Returns [];
       find_tables :=
         Returns [ Returns [[lit "a"; lit "b"]]; Returns [];
                   Returns [[lit "c"]];
                   Raises (OtherException (lit "bad table"));
                   Returns [[lit "d"]] ] |} =
  [ [[lit "a"; lit "b"]]; [[lit "c"]] ].
Proof.
  rewrite (extract_tables_until_failure _
             [ [[lit "a"; lit "b"]]; []; [[lit "c"]] ]
             [ Raises (OtherException (lit "bad table")); Returns [[lit "d"]] ]).
  - reflexivity.
  - reflexivity.
  - right. eexists. eexists. reflexivity.
Defined.

Lemma extract_tables_nonempty (p : Page) :
  Forall (fun t => t <> []) (extract_tables p).
Proof.
  unfold extract_tables. destruct (find_tables p) as [finder|e]; [|constructor].
  assert (H : forall acc, Forall (fun t : list (list str) => t <> []) acc ->
                          Forall (fun t => t <> []) (collect_tables finder acc)).
  { induction finder as [|[t|e] finder IH]; intros acc Hacc; cbn [collect_tables].
    - exact Hacc.
    - apply IH. destruct t as [|row t]; cbn [truthy]; [exact Hacc|].
      apply Forall_app. split; [exact Hacc|]. repeat constructor. congruence.
    - exact Hacc. }
  apply H. constructor.
Qed.

(** The loop, on pages that all yield their text: the tables are those of
    the pages, in page order. *)
Lemma extract_pages_tables (pages : list Page) (k : nat)
    (all_text : list str) (all_tables : list TableRecord) :
  Forall (fun pg => exists t, get_text pg = Returns t) pages ->
  exists texts,
    extract_pages (Z.of_nat k) pages all_text all_tables =
    Returns (texts,
             all_tables ++ concat (imap (fun i => page_tables (k + i)) pages)).
Proof.
  intros H. revert k all_text all_tables.
  induction H as [|pg pages [t Hpg] _ IH]; intros k all_text all_tables.
  - exists all_text. simpl. rewrite app_nil_r. reflexivity.
  - cbn [extract_pages]. rewrite Hpg.
    replace (Z.of_nat k + 1) with (Z.of_nat (S k)) by lia.
    destruct (IH (S k)
                (if truthy t then all_text ++ [render_page (Z.of_nat k) t]
                 else all_text)
                (all_tables ++
                 map (fun table => {| page := Z.of_nat (S k); data := table |})
                     (extract_tables pg))) as [texts Ht].
    exists texts. rewrite Ht. f_equal. f_equal.
    rewrite imap_cons. cbn [concat]. rewrite <- app_assoc. f_equal.
    f_equal.
    + unfold page_tables. rewrite Nat.add_0_r.
      replace (Z.of_nat k + 1) with (Z.of_nat (S k)) by lia. reflexivity.
    + f_equal. apply imap_ext. intros i x _. simpl. f_equal. lia.
Qed.

Lemma with_warnings_kept (r : ParseResult) :
  tables (with_warnings r) = tables r /\
  sections (with_warnings r) = sections r /\
  parsedAt (with_warnings r) = parsedAt r.
Proof.
  unfold with_warnings.
  destruct (len (strip (text r)) <? 100);
    cbn [pageCount append_warning];
    destruct (100 <? pageCount r); repeat split; reflexivity.
Qed.

Lemma handle_kept (e : exn) (r : ParseResult) :
  tables (handle e r) = tables r /\ sections (handle e r) = sections r /\
  parsedAt (handle e r) = parsedAt r /\
  warnings (handle e r) =
    warnings r ++
    [match e with
     | FileDataError msg => lit "PDF parsing error: " ++ msg
     | OtherException msg => lit "Unexpected error: " ++ msg
     end].
Proof. destruct e; repeat split; reflexivity. Qed.

Lemma run_tables (w : World) (input_path : str) (doc : Document)
    (extracted : list str * list TableRecord) :
  fitz_open w input_path = Returns doc ->
  extract_pages 0 (doc_pages doc) [] [] = Returns extracted ->
  tables (parse_pdf w input_path) = snd extracted.
Proof.
  intros Hopen Hpages. unfold parse_pdf.
  destruct (run_parse_pdf_cases w input_path)
    as [(e & H1 & E) | (doc' & H1 & [(e & H2 & E) | (extracted' & H2 &
         [(e & H3 & E) | (h & H3 & E)])])];
    rewrite H1 in Hopen; try discriminate; injection Hopen as ->;
    rewrite H2 in Hpages; try discriminate; injection Hpages as ->;
    rewrite E; cbn [result].
  - rewrite (proj1 (handle_kept e _)). reflexivity.
  - cbn [tables set_success]. rewrite (proj1 (with_warnings_kept _)).
    unfold after_extraction.
    cbn [tables set_sections set_contentHash]. reflexivity.
Qed.

Lemma page_count_of_opened_document_aux (w : World) (input_path : str)
    (doc : Document) :
  fitz_open w input_path = Returns doc ->
  pageCount (parse_pdf w input_path) = Z.of_nat (length (doc_pages doc)).
Proof.
  intros Hopen. unfold parse_pdf.
  destruct (run_parse_pdf_cases w input_path)
    as [(e & H1 & E) | (doc' & H1 & [(e & _ & E) | (extracted & _ &
         [(e & H3 & E) | (h & H3 & E)])])];
    rewrite H1 in Hopen; try discriminate; injection Hopen as ->;
    rewrite E; cbn [result].
  - rewrite (proj2 (proj2 (proj2 (proj2 (handle_fields e _))))).
    apply after_open_fields.
  - rewrite (proj2 (proj2 (proj2 (proj2 (handle_fields e _))))).
    unfold after_pages. cbn [pageCount set_tables set_text].
    apply after_open_fields.
  - cbn [pageCount set_success].
    rewrite (proj1 (proj2 (proj2 (proj2 (with_warnings_fields _))))).
    unfold after_extraction, after_pages.
    cbn [pageCount set_sections set_contentHash set_tables set_text].
    apply after_open_fields.
Qed.

(** X23. Whenever the document opens, the page count of the result is
    the number of its pages, whatever happens afterwards; when it does not
    open, the page count is 0. *)
Theorem page_count_of_run (w : World) (input_path : str) :
  pageCount (parse_pdf w input_path) =
  match fitz_open w input_path with
  | Returns doc => Z.of_nat (length (doc_pages doc))
  | Raises _ => 0
  end.
Proof.
  destruct (fitz_open w input_path) as [doc|e] eqn:Hopen.
  - apply page_count_of_opened_document_aux, Hopen.
  - unfold parse_pdf.
    rewrite (run_parse_pdf_raises _ _ _ _
               (extraction_stage_open_fails w input_path e Hopen)).
    cbn [result]. rewrite (proj2 (proj2 (proj2 (proj2 (handle_fields e _))))).
    reflexivity.
Qed.

Lemma page_tables_elem (i : nat) (p : Page) (t : TableRecord) :
  t ∈ page_tables i p -> page t = Z.of_nat i + 1 /\ data t <> [].
Proof.
  unfold page_tables. intros H. apply list_elem_of_fmap in H as (x & -> & Hx).
  split; [reflexivity|]. simpl.
  pose proof (extract_tables_nonempty p) as Hall.
  rewrite Forall_forall in Hall. apply Hall, Hx.
Qed.

(** In the concatenation of what the pages contribute, a record found
    later does not come from an earlier page. *)
Lemma concat_page_tables_sorted (pages : list Page) (k : nat) (i j : nat)
    (a b : TableRecord) :
  (i < j)%nat ->
  concat (imap (fun i => page_tables (k + i)) pages) !! i = Some a ->
  concat (imap (fun i => page_tables (k + i)) pages) !! j = Some b ->
  Z.of_nat k + 1 <= page a <= page b.
Proof.
  revert k i j. induction pages as [|p pages IH]; intros k i j Hij Ha Hb.
  - discriminate.
  - rewrite imap_cons in Ha, Hb. cbn [concat] in Ha, Hb.
    rewrite Nat.add_0_r in Ha, Hb.
    rewrite (imap_ext _ (fun i => page_tables (S k + i)) pages) in Ha, Hb
      by (intros ? ? _; simpl; f_equal; lia).
    assert (Hlater : forall n c,
               concat (imap (fun i => page_tables (S k + i)) pages) !! n = Some c ->
               Z.of_nat k + 1 < page c).
    { intros n c Hc. apply list_elem_of_lookup_2 in Hc.
      apply list_elem_of_In, in_concat in Hc as (l & Hl & Hcl).
      apply list_elem_of_In in Hl, Hcl.
      apply list_elem_of_lookup in Hl as [m Hm].
      rewrite list_lookup_imap in Hm.
      destruct (pages !! m) as [q|]; [|discriminate]. injection Hm as <-.
      apply page_tables_elem in Hcl as [-> _]. lia. }
    destruct (decide (i < length (page_tables k p))%nat) as [Hi|Hi].
    + rewrite lookup_app_l in Ha by exact Hi.
      apply list_elem_of_lookup_2, page_tables_elem in Ha as [Ha _].
      destruct (decide (j < length (page_tables k p))%nat) as [Hj|Hj].
      * rewrite lookup_app_l in Hb by exact Hj.
        apply list_elem_of_lookup_2, page_tables_elem in Hb as [Hb _].
        rewrite Ha, Hb. lia.
      * rewrite lookup_app_r in Hb by lia. apply Hlater in Hb.
        rewrite Ha. lia.
    + rewrite lookup_app_r in Ha by lia. rewrite lookup_app_r in Hb by lia.
      assert (Hlt : (i - length (page_tables k p) < j - length (page_tables k p))%nat)
        by lia.
      destruct (IH (S k) _ _ Hlt Ha Hb). lia.
Qed.

(** X2. When every page yields its text, the tables of the result are the
    tables of the pages in page order, each tagged with the 1-based
    position of its page: page numbers lie between 1 and the page count,
    never decrease along the list, and no table is empty. *)
Theorem tables_of_pages (w : World) (input_path : str) (doc : Document) :
  fitz_open w input_path = Returns doc ->
  Forall (fun pg => exists t, get_text pg = Returns t) (doc_pages doc) ->
  let r := parse_pdf w input_path in
  tables r =
    concat (imap (fun i pg =>
                    (fun t => {| page := Z.of_nat i + 1; data := t |})
                      <$> extract_tables pg) (doc_pages doc)) /\
  Forall (fun t => 1 <= page t <= pageCount r /\ data t <> []) (tables r) /\
  (forall (i j : nat) (a b : TableRecord),
      (i < j)%nat -> tables r !! i = Some a -> tables r !! j = Some b ->
      page a <= page b).
Proof.
  intros Hopen Hpages r.
  destruct (extract_pages_tables _ 0 [] [] Hpages) as [texts Hx].
  change (Z.of_nat 0) with 0 in Hx. cbn [app] in Hx.
  assert (Ht : tables r =
               concat (imap (fun i => page_tables (0 + i)) (doc_pages doc))).
  { subst r. rewrite (run_tables w input_path doc _ Hopen Hx). reflexivity. }
  assert (Hc : pageCount r = Z.of_nat (length (doc_pages doc))).
  { subst r. apply page_count_of_opened_document_aux, Hopen. }
  split; [exact Ht|]. rewrite Ht, Hc. split.
  - apply Forall_forall. intros t Hin.
    apply list_elem_of_In, in_concat in Hin as (l & Hl & Htl).
    apply list_elem_of_In in Hl, Htl.
    apply list_elem_of_lookup in Hl as [m Hm].
    rewrite list_lookup_imap in Hm.
    destruct (doc_pages doc !! m) as [q|] eqn:Eq; [|discriminate].
    injection Hm as <-. apply lookup_lt_Some in Eq.
    apply page_tables_elem in Htl as [-> Hd]. split; [lia | exact Hd].
  - intros i j a b Hij Ha Hb.
    destruct (concat_page_tables_sorted _ 0 i j a b Hij Ha Hb). lia.
Qed.

Lemma tables_of_pages_witness :
  tables (parse_pdf (world_of [] true (Returns tabled_document)) job_input) =
  [ {| page := 1; data := [[lit "Na"; lit "140"]] |};
    {| page := 3; data := [[lit "ASA"]] |};
    {| page := 3; data := [[lit "Statin"]] |} ].
Proof.
  assert (Hp : Forall (fun pg => exists t, get_text pg = Returns t)
                 (doc_pages tabled_document)).
  { repeat constructor; eexists; reflexivity. }
  rewrite (proj1 (tables_of_pages (world_of [] true (Returns tabled_document))
                    job_input tabled_document eq_refl Hp)).
  vm_compute. reflexivity.
Defined.

(** A run, by the outcome of each of its fallible calls. *)
Lemma parse_pdf_view (w : World) (input_path : str) :
  parse_pdf w input_path =
  match fitz_open w input_path with
  | Raises e => handle e (initial_result w)
  | Returns doc =>
      match extract_pages 0 (doc_pages doc) [] [] with
      | Raises e => handle e (after_open w doc)
      | Returns extracted =>
          match compute_hash (join [nl; nl] (fst extracted)) with
          | Raises e => handle e (after_pages w doc extracted)
          | Returns h =>
              set_success true
                (with_warnings (after_extraction w doc extracted h))
          end
      end
  end.
Proof.
  unfold parse_pdf.
  destruct (run_parse_pdf_cases w input_path)
    as [(e & H1 & E) | (doc & H1 & [(e & H2 & E) | (extracted & H2 &
         [(e & H3 & E) | (h & H3 & E)])])];
    rewrite E, H1; cbn [result]; try rewrite H2; try rewrite H3; reflexivity.
Qed.

Lemma same_but_tables_handle (e : exn) (r1 r2 : ParseResult) :
  same_but_tables r1 r2 -> same_but_tables (handle e r1) (handle e r2).
Proof.
  unfold same_but_tables. intros (Hs & Hp & Ht & Hm & Hsec & Hh & Hw & Hd).
  destruct e; cbn; rewrite Hw; repeat split; assumption.
Qed.

Lemma same_but_tables_assembled (r1 r2 : ParseResult) :
  same_but_tables r1 r2 ->
  same_but_tables (set_success true (with_warnings r1))
                  (set_success true (with_warnings r2)).
Proof.
  unfold same_but_tables. intros (Hs & Hp & Ht & Hm & Hsec & Hh & Hw & Hd).
  cbn [success pageCount text metadata sections contentHash warnings parsedAt
       set_success].
  destruct (with_warnings_fields r1) as (-> & -> & -> & -> & _).
  destruct (with_warnings_fields r2) as (-> & -> & -> & -> & _).
  destruct (with_warnings_kept r1) as (_ & -> & ->).
  destruct (with_warnings_kept r2) as (_ & -> & ->).
  rewrite !with_warnings_list, Ht, Hp, Hw. repeat split; assumption.
Qed.

(** Pages with the same texts: the loop fails alike, or returns the same
    text chunks. *)
Lemma extract_pages_same_texts (ps1 ps2 : list Page) (k : Z)
    (acc : list str) (t1 t2 : list TableRecord) :
  Forall2 (fun p q => get_text p = get_text q) ps1 ps2 ->
  match extract_pages k ps1 acc t1, extract_pages k ps2 acc t2 with
  | Returns x1, Returns x2 => fst x1 = fst x2
  | Raises e1, Raises e2 => e1 = e2
  | _, _ => False
  end.
Proof.
  intros H. revert k acc t1 t2.
  induction H as [|p q ps1 ps2 Hpq _ IH]; intros k acc t1 t2.
  - reflexivity.
  - cbn [extract_pages]. rewrite Hpq.
    destruct (get_text q) as [t|e]; [apply IH | reflexivity].
Qed.

(** X3. Table detection is silent: two documents with the same metadata
    and the same page texts give results that agree on every key but
    [tables], whatever their table finders return or raise; a failure of
    table detection leaves no warning and does not change [success]. *)
Theorem table_detection_is_silent (w : World) (input_path : str)
    (d1 d2 : Document) :
  doc_metadata d1 = doc_metadata d2 ->
  Forall2 (fun p q => get_text p = get_text q) (doc_pages d1) (doc_pages d2) ->
  same_but_tables (parse_pdf (with_document w (Returns d1)) input_path)
                  (parse_pdf (with_document w (Returns d2)) input_path).
Proof.
  intros Hmeta Hpages. rewrite !parse_pdf_view. cbn [fitz_open with_document].
  assert (Hopen : same_but_tables
                    (after_open (with_document w (Returns d1)) d1)
                    (after_open (with_document w (Returns d2)) d2)).
  { unfold after_open. rewrite Hmeta, (Forall2_length _ _ _ Hpages).
    destruct (metadata_truthy (doc_metadata d2)); repeat split. }
  pose proof (extract_pages_same_texts _ _ 0 [] [] [] Hpages) as Hx.
  destruct (extract_pages 0 (doc_pages d1) [] []) as [x1|e1];
    destruct (extract_pages 0 (doc_pages d2) [] []) as [x2|e2];
    try contradiction.
  - rewrite Hx.
    assert (Hp : same_but_tables
                   (after_pages (with_document w (Returns d1)) d1 x1)
                   (after_pages (with_document w (Returns d2)) d2 x2)).
    { unfold after_pages, same_but_tables in *. rewrite Hx.
      cbn [success pageCount text metadata sections contentHash warnings
           parsedAt set_tables set_text].
      destruct Hopen as (? & ? & ? & ? & ? & ? & ? & ?). repeat split; assumption. }
    destruct (compute_hash (join [nl; nl] (fst x2))) as [h|e].
    + apply same_but_tables_assembled.
      unfold after_extraction, same_but_tables in *. rewrite Hx.
      cbn [success pageCount text metadata sections contentHash warnings
           parsedAt set_sections set_contentHash unicode_upper with_document].
      destruct Hp as (? & ? & ? & ? & ? & ? & ? & ?). repeat split; assumption.
    + apply same_but_tables_handle, Hp.
  - subst e2. apply same_but_tables_handle, Hopen.
Qed.

Lemma table_detection_is_silent_witness :
  same_but_tables
    (parse_pdf (with_document (world_of [] true (Raises (OtherException [])))
                  (Returns tabled_document)) job_input)
    (parse_pdf (with_document (world_of [] true (Raises (OtherException [])))
                  (Returns finderless_document)) job_input) /\
  tables (parse_pdf (with_document (world_of [] true (Raises (OtherException [])))
                       (Returns finderless_document)) job_input) = [].
Proof.
  split.
  - apply table_detection_is_silent; [reflexivity|].
    repeat constructor.
  - vm_compute. reflexivity.
Defined.

(** ** Failures of the primary pipeline *)

(** X4. When the document does not open, the result keeps every default
    (no page, no text, no table, no metadata, no section, no hash) and
    carries one warning, which tells a document the library rejects from
    any other failure. *)
Theorem parse_pdf_open_fails (w : World) (input_path : str) (e : exn) :
  fitz_open w input_path = Raises e ->
  parse_pdf w input_path =
  {| success := false; pageCount := 0; text := []; tables := [];
     metadata := ∅; sections := []; contentHash := [];
     warnings := [match e with
                  | FileDataError msg => lit "PDF parsing error: " ++ msg
                  | OtherException msg => lit "Unexpected error: " ++ msg
                  end];
     parsedAt := utcnow_isoformat w ++ lit "Z" |}.
Proof.
  intros H. rewrite parse_pdf_view, H. destruct e; reflexivity.
Qed.

Lemma parse_pdf_open_fails_witness :
  warnings (parse_pdf (world_of [] true
                         (Raises (FileDataError (lit "Failed to open file"))))
              job_input) =
  [lit "PDF parsing error: Failed to open file"].
Proof.
  rewrite (parse_pdf_open_fails
             (world_of [] true
                (Raises (FileDataError (lit "Failed to open file"))))
             job_input (FileDataError (lit "Failed to open file")) eq_refl).
  vm_compute. reflexivity.
Defined.

Lemma extract_pages_first_failure (before after : list Page) (bad : Page)
    (e : exn) (k : Z) (acc : list str) (t : list TableRecord) :
  Forall (fun pg => exists t, get_text pg = Returns t) before ->
  get_text bad = Raises e ->
  extract_pages k (before ++ bad :: after) acc t = Raises e.
Proof.
  intros H Hbad. revert k acc t.
  induction H as [|pg before [x Hx] _ IH]; intros k acc t.
  - cbn [app extract_pages]. rewrite Hbad. reflexivity.
  - cbn [app extract_pages]. rewrite Hx. apply IH.
Qed.

(** X5. When a page fails to yield its text, the run fails with the
    exception of the first such page as its only warning, and the text and
    tables of the pages read before it are discarded with it: text, tables,
    sections and hash keep their defaults, while the page count stays. *)
Theorem page_failure_discards_progress (w : World) (input_path : str)
    (doc : Document) (before after : list Page) (bad : Page) (e : exn) :
  fitz_open w input_path = Returns doc ->
  doc_pages doc = before ++ bad :: after ->
  Forall (fun pg => exists t, get_text pg = Returns t) before ->
  get_text bad = Raises e ->
  let r := parse_pdf w input_path in
  success r = false /\ text r = [] /\ tables r = [] /\ sections r = [] /\
  contentHash r = [] /\
  warnings r = [match e with
                | FileDataError msg => lit "PDF parsing error: " ++ msg
                | OtherException msg => lit "Unexpected error: " ++ msg
                end] /\
  pageCount r = Z.of_nat (length (doc_pages doc)).
Proof.
  intros Hopen Hpages Hbefore Hbad r. subst r.
  rewrite parse_pdf_view, Hopen, Hpages.
  rewrite (extract_pages_first_failure before after bad e 0 [] [] Hbefore Hbad).
  rewrite <- Hpages.
  destruct (handle_fields e (after_open w doc)) as (-> & -> & -> & _ & ->).
  destruct (handle_kept e (after_open w doc)) as (-> & -> & _ & ->).
  destruct (after_open_fields w doc) as (-> & -> & -> & -> & _).
  unfold after_open.
  destruct (metadata_truthy (doc_metadata doc)); repeat split.
Qed.

Lemma page_failure_discards_progress_witness :
  let r := parse_pdf (world_of [] true (Returns half_readable_document))
             job_input in
  text r = [] /\ tables r = [] /\
  warnings r = [lit "PDF parsing error: broken page"] /\ pageCount r = 2.
Proof.
  intros r.
  destruct (page_failure_discards_progress
              (world_of [] true (Returns half_readable_document)) job_input
              half_readable_document
              [ {| get_text := Returns (lit "Intro");
                   find_tables := Returns [Returns [[lit "Na"; lit "140"]]] |} ]
              []
              {| get_text := Raises (FileDataError (lit "broken page"));
                 find_tables := Returns [] |}
              (FileDataError (lit "broken page")) eq_refl eq_refl)
    as (_ & Ht & Htab & _ & _ & Hw & Hc).
  { repeat constructor. eexists. reflexivity. }
  { reflexivity. }
  fold r in Ht, Htab, Hw, Hc. repeat split; assumption.
Defined.

(** X6. A failed run carries exactly one warning, the message of its
    handler, and no section; a successful run carries at most the two
    warnings of the assembler, and its sections are those detected in its
    text. *)
Theorem warnings_by_outcome (w : World) (input_path : str) :
  let r := parse_pdf w input_path in
  (success r = false ->
   (exists e, warnings r = [error_warning e]) /\ sections r = []) /\
  (success r = true ->
   (length (warnings r) <= 2)%nat /\
   sections r = detect_sections (unicode_upper w) (text r)).
Proof.
  intros r. subst r. rewrite parse_pdf_view.
  destruct (fitz_open w input_path) as [doc|e].
  2:{ destruct (handle_fields e (initial_result w)) as (-> & _).
      destruct (handle_kept e (initial_result w)) as (_ & -> & _ & ->).
      split; [|discriminate]. intros _. split; [exists e|]; reflexivity. }
  assert (Ho : warnings (after_open w doc) = [] /\ sections (after_open w doc) = []).
  { unfold after_open. destruct (metadata_truthy (doc_metadata doc)); split; reflexivity. }
  destruct (extract_pages 0 (doc_pages doc) [] []) as [x|e].
  2:{ destruct (handle_fields e (after_open w doc)) as (-> & _).
      destruct (handle_kept e (after_open w doc)) as (_ & -> & _ & ->).
      destruct Ho as [-> ->].
      split; [|discriminate]. intros _. split; [exists e|]; reflexivity. }
  destruct (compute_hash (join [nl; nl] (fst x))) as [h|e].
  2:{ destruct (handle_fields e (after_pages w doc x)) as (-> & _).
      destruct (handle_kept e (after_pages w doc x)) as (_ & -> & _ & ->).
      unfold after_pages. cbn [warnings sections set_tables set_text].
      destruct Ho as [-> ->].
      split; [|discriminate]. intros _. split; [exists e|]; reflexivity. }
  cbn [success warnings sections text set_success].
  split; [discriminate|]. intros _.
  destruct (with_warnings_fields (after_extraction w doc x h)) as (-> & _).
  destruct (with_warnings_kept (after_extraction w doc x h)) as (_ & -> & _).
  rewrite with_warnings_list.
  assert (Hw : warnings (after_extraction w doc x h) = []).
  { unfold after_extraction, after_pages.
    cbn [warnings set_sections set_contentHash set_tables set_text].
    apply Ho. }
  rewrite Hw. split; [|reflexivity].
  destruct (len (strip (text (after_extraction w doc x h))) <? 100);
    destruct (100 <? pageCount (after_extraction w doc x h)); simpl; lia.
Qed.

(** X7. The document handle is opened exactly when [fitz.open] returns
    and closed exactly in the runs that succeed; it is never closed
    without having been opened. *)
Theorem handle_lifecycle (w : World) (input_path : str) :
  let m := run_parse_pdf w input_path in
  (doc_opened m = true <-> exists doc, fitz_open w input_path = Returns doc) /\
  (doc_closed m = true <-> success (result m) = true) /\
  (doc_closed m = true -> doc_opened m = true).
Proof.
  intros m. subst m.
  destruct (run_parse_pdf_cases w input_path)
    as [(e & H1 & E) | (doc & H1 & [(e & _ & E) | (extracted & _ &
         [(e & H3 & E) | (h & H3 & E)])])];
    rewrite E, H1; cbn [result doc_opened doc_closed];
    try rewrite (proj1 (handle_fields e _)).
  all: repeat split; intros H; try discriminate H; try reflexivity;
    try (match type of H with ex _ => destruct H as [? H]; discriminate H end);
    eauto.
Qed.

(** ** Alternate path *)

(** A run of [parse_image], by the outcome of its two fallible calls. *)
Lemma parse_image_view (w : World) (input_path : str) :
  parse_image w input_path =
  match read_bytes w input_path with
  | Raises e =>
      set_success false
        (append_warning (lit "Image parsing error: " ++ exn_message e)
           (initial_image_result w))
  | Returns content =>
      match stat_size w input_path with
      | Raises e =>
          set_success false
            (append_warning (lit "Image parsing error: " ++ exn_message e)
               (set_contentHash (Sha256.hexdigest content)
                  (initial_image_result w)))
      | Returns size =>
          set_success true
            (set_metadata
               (list_to_map
                  [ ("filename", PyStr (path_name w input_path));
                    ("extension",
                     PyStr (lower (unicode_lower w) (path_suffix w input_path)));
                    ("sizeBytes", PyInt size) ]%string)
               (set_contentHash (Sha256.hexdigest content)
                  (initial_image_result w)))
      end
  end.
Proof.
  unfold parse_image, image_try_block, bind, call, update, ret.
  destruct (read_bytes w input_path) as [content|[msg|msg]]; try reflexivity.
  cbn [result]. destruct (stat_size w input_path) as [size|[msg|msg]];
    reflexivity.
Qed.

(** X8. The alternate path never produces text, tables or sections and
    always reports one page. It succeeds exactly when the file can be read
    and its size obtained; then its only warning is the OCR notice and its
    metadata has exactly the keys filename, extension and sizeBytes.
    Otherwise the OCR notice is followed by one error warning and the
    metadata is empty. *)
Theorem parse_image_outcome (w : World) (input_path : str) :
  let r := parse_image w input_path in
  pageCount r = 1 /\ text r = [] /\ tables r = [] /\ sections r = [] /\
  (success r = true <->
   exists content size,
     read_bytes w input_path = Returns content /\
     stat_size w input_path = Returns size) /\
  (success r = true ->
   warnings r = [ocr_warning] /\
   dom (metadata r) =
     ({[ "filename"; "extension"; "sizeBytes" ]} : gset string)%string) /\
  (success r = false ->
   (exists e, warnings r =
              [ocr_warning; lit "Image parsing error: " ++ exn_message e]) /\
   metadata r = ∅).
Proof.
  intros r. subst r. rewrite parse_image_view.
  destruct (read_bytes w input_path) as [content|e].
  - destruct (stat_size w input_path) as [size|e];
      cbn [success pageCount text tables sections warnings metadata
           set_success set_metadata set_contentHash append_warning
           initial_image_result app].
    + repeat split; try discriminate; eauto.
    + repeat split; try discriminate.
      * intros (c & s & _ & Hs). discriminate.
      * exists e. reflexivity.
  - cbn [success pageCount text tables sections warnings metadata
         set_success append_warning initial_image_result app].
    repeat split; try discriminate.
    + intros (c & s & Hc & _). discriminate.
    + exists e. reflexivity.
Qed.

(** X9. The hash of the alternate path is the SHA-256 hex digest of the
    raw bytes of the file as soon as the file is read, also when the run
    then fails to obtain the size; it is empty when the file cannot be
    read. *)
Theorem parse_image_hash (w : World) (input_path : str) :
  contentHash (parse_image w input_path) =
  match read_bytes w input_path with
  | Returns content => Sha256.hexdigest content
  | Raises _ => []
  end.
Proof.
  rewrite parse_image_view.
  destruct (read_bytes w input_path) as [content|e]; [|reflexivity].
  destruct (stat_size w input_path); reflexivity.
Qed.

(** ** Routing and exit code *)

(** Every warning of the primary pipeline is the message of a handler or
    one of the two notices of the assembler. *)
Lemma parse_pdf_warning_shape (w : World) (input_path : str) (x : str) :
  x ∈ warnings (parse_pdf w input_path) ->
  (exists e, x = error_warning e) \/ x = low_content_warning \/
  exists n, x = large_document_warning n.
Proof.
  rewrite parse_pdf_view.
  assert (Ho : forall doc, warnings (after_open w doc) = []).
  { intros doc. unfold after_open.
    destruct (metadata_truthy (doc_metadata doc)); reflexivity. }
  assert (Herr : forall e r, warnings r = [] ->
                   x ∈ warnings (handle e r) -> exists e, x = error_warning e).
  { intros e r Hr Hx. rewrite (proj2 (proj2 (proj2 (handle_kept e r)))), Hr in Hx.
    apply list_elem_of_singleton in Hx. exists e. exact Hx. }
  destruct (fitz_open w input_path) as [doc|e].
  2:{ intros Hx. left. apply (Herr e (initial_result w) eq_refl Hx). }
  destruct (extract_pages 0 (doc_pages doc) [] []) as [ex|e].
  2:{ intros Hx. left. apply (Herr e _ (Ho doc) Hx). }
  destruct (compute_hash (join [nl; nl] (fst ex))) as [h|e].
  2:{ intros Hx. left. apply (Herr e (after_pages w doc ex)); [|exact Hx].
      unfold after_pages. cbn [warnings set_tables set_text]. apply Ho. }
  cbn [warnings set_success]. rewrite with_warnings_list.
  assert (Hw : warnings (after_extraction w doc ex h) = []).
  { unfold after_extraction, after_pages.
    cbn [warnings set_sections set_contentHash set_tables set_text]. apply Ho. }
  rewrite Hw. cbn [app]. intros Hx. right.
  apply elem_of_app in Hx as [Hx|Hx].
  - destruct (len (strip (text (after_extraction w doc ex h))) <? 100).
    + apply list_elem_of_singleton in Hx. left. exact Hx.
    + apply elem_of_nil in Hx as [].
  - destruct (100 <? pageCount (after_extraction w doc ex h)).
    + apply list_elem_of_singleton in Hx. right. eexists. exact Hx.
    + apply elem_of_nil in Hx as [].
Qed.

Lemma unknown_not_pdf_warning (w : World) (input_path : str) :
  unknown_type_warning ∉ warnings (parse_pdf w input_path).
Proof.
  intros H.
  apply parse_pdf_warning_shape in H as [[e H] | [H | [n H]]].
  - destruct e as [msg|msg]; apply (f_equal (take 3)) in H;
      vm_compute in H; discriminate.
  - vm_compute in H. discriminate.
  - apply (f_equal (take 3)) in H. vm_compute in H. discriminate.
Qed.

Lemma unknown_not_image_warning (w : World) (input_path : str) :
  unknown_type_warning ∉ warnings (parse_image w input_path).
Proof.
  rewrite parse_image_view. intros H.
  assert (He : forall e, unknown_type_warning <>
                         lit "Image parsing error: " ++ exn_message e).
  { intros e E. apply (f_equal (take 3)) in E. vm_compute in E. discriminate. }
  assert (Ho : unknown_type_warning <> ocr_warning).
  { intros E. vm_compute in E. discriminate. }
  destruct (read_bytes w input_path) as [content|e];
    [destruct (stat_size w input_path) as [size|e]|];
    cbn [warnings set_success set_metadata set_contentHash append_warning
         initial_image_result app] in H;
    fold ocr_warning in H;
    repeat (apply elem_of_cons in H as [H|H]; [first [destruct (Ho H) | destruct (He _ H)]|]);
    apply elem_of_nil in H as [].
Qed.

(** X10. The warning about an unknown file type is in the result exactly
    when the path ends neither in [.pdf] nor in an image suffix and the
    attempt to parse it as a PDF fails. *)
Theorem unknown_type_warning_iff (w : World) (input_path : str) :
  unknown_type_warning ∈ warnings (parse_by_type w input_path) <->
  ends_with (lit ".pdf") (lower (unicode_lower w) input_path) = false /\
  existsb (fun sfx => ends_with (lit sfx) (lower (unicode_lower w) input_path))
          image_suffixes = false /\
  success (parse_pdf w input_path) = false.
Proof.
  unfold parse_by_type.
  destruct (ends_with (lit ".pdf") (lower (unicode_lower w) input_path)).
  { split; [intros H; destruct (unknown_not_pdf_warning _ _ H)|].
    intros (H & _). discriminate. }
  destruct (existsb _ image_suffixes).
  { split; [intros H; destruct (unknown_not_image_warning _ _ H)|].
    intros (_ & H & _). discriminate. }
  destruct (success (parse_pdf w input_path)) eqn:Es; cbn [negb].
  - split; [intros H; destruct (unknown_not_pdf_warning _ _ H)|].
    intros (_ & _ & H). discriminate.
  - split; [intros _; repeat split|]. intros _.
    cbn [warnings append_warning]. apply elem_of_app. right. left.
Qed.

(** X11. The exit code is 0 or 1, and it is 0 exactly when the program is
    given two arguments, the input exists, the parser chosen for it
    succeeds and the result is written to the output file. *)
Theorem main_exit_code (w : World) :
  (exit_code (main w) = 0 \/ exit_code (main w) = 1) /\
  (exit_code (main w) = 0 <->
   exists prog input_path output_path,
     argv w = [prog; input_path; output_path] /\
     path_exists w input_path = true /\
     success (parse_by_type w input_path) = true /\
     write_json w 0 output_path
       (json_of_result (parse_by_type w input_path)) false = Written).
Proof.
  unfold main, main_try, dump_to.
  destruct (argv w) as [|prog [|input_path [|output_path [|extra rest]]]];
    cbn [exit_code];
    try (split; [right; reflexivity|];
         split; [discriminate | intros (? & ? & ? & H & _); discriminate H]).
  destruct (path_exists w input_path) eqn:Ee; cbn [negb].
  - destruct (write_json w 0 output_path
                (json_of_result (parse_by_type w input_path)) false)
      as [e|e|] eqn:Ew.
    + destruct (write_json w 1 output_path (uncaught_result w e) true);
        cbn [exit_code exits uncaught];
        (split; [right; reflexivity|]); (split; [discriminate|]);
        intros (? & ? & ? & H & _ & _ & Hw); injection H as -> -> ->;
        congruence.
    + destruct (write_json w 1 output_path (uncaught_result w e) true);
        cbn [exit_code exits uncaught];
        (split; [right; reflexivity|]); (split; [discriminate|]);
        intros (? & ? & ? & H & _ & _ & Hw); injection H as -> -> ->;
        congruence.
    + cbn [exit_code exits].
      destruct (success (parse_by_type w input_path)) eqn:Es.
      * split; [left; reflexivity|]. split; [|reflexivity]. intros _.
        exists prog, input_path, output_path. repeat split; assumption.
      * split; [right; reflexivity|]. split; [discriminate|].
        intros (? & ? & ? & H & _ & Hs & _). injection H as -> -> ->.
        congruence.
  - destruct (write_json w 0 output_path
                (missing_input_result w input_path) true);
      cbn [exit_code exits uncaught];
      (split; [right; reflexivity|]); (split; [discriminate|]);
      intros (? & ? & ? & H & He & _); injection H as -> -> ->; congruence.
Qed.

(** The documents [main] hands to [json.dump] all say whether the run
    succeeded, and when. *)
Lemma json_of_result_fields (r : ParseResult) :
  json_field "success" (json_of_result r) = Some (JBool (success r)) /\
  is_Some (json_field "parsedAt" (json_of_result r)).
Proof. split; [reflexivity | eexists; reflexivity]. Qed.

(** A file that holds a document holds one of the two reduced
    dictionaries, which say [success: false] and when. *)
Ltac held_document Hin :=
  first
    [ apply elem_of_nil in Hin; destruct Hin
    | apply list_elem_of_singleton in Hin;
      first [ discriminate Hin
            | injection Hin as -> ->;
              split; [reflexivity | eexists; reflexivity] ] ].

(** X12. Given any number of arguments other than two, the program opens
    no file, prints the usage line and exits with code 1. Given two, it
    opens no file but the one at the output path; when that file holds a
    document at exit, the document is a JSON object whose [success] key
    agrees with the exit code and which has a [parsedAt] key; and an exit
    code of 0 means that the file holds the result of the parser, written
    with [ensure_ascii=False], and that nothing was printed. *)
Theorem main_output_file (w : World) :
  match argv w with
  | [_; input_path; output_path] =>
      (exists st, files (main w) = files_of output_path st) /\
      (forall value ensure_ascii,
          (output_path, Holds value ensure_ascii) ∈ files (main w) ->
          json_field "success" value = Some (JBool (exit_code (main w) =? 0)) /\
          is_Some (json_field "parsedAt" value)) /\
      (exit_code (main w) = 0 ->
       main w =
       {| exit_code := 0;
          files := [(output_path,
                     Holds (json_of_result (parse_by_type w input_path)) false)];
          stderr_lines := [] |})
  | _ =>
      files (main w) = [] /\ exit_code (main w) = 1 /\
      stderr_lines (main w) =
        [lit "Usage: python parse.py <input_file> <output_file>"]
  end.
Proof.
  unfold main, main_try, dump_to.
  destruct (argv w) as [|prog [|input_path [|output_path [|extra rest]]]];
    try (repeat split; reflexivity).
  destruct (path_exists w input_path); cbn [negb].
  - destruct (write_json w 0 output_path
                (json_of_result (parse_by_type w input_path)) false)
      as [e|e|].
    + destruct (write_json w 1 output_path (uncaught_result w e) true);
        cbn [exit_code files exits uncaught files_of];
        (split; [first [exists None; reflexivity
                       | eexists (Some _); reflexivity]|]);
        (split; [|discriminate]); intros v a Hin; held_document Hin.
    + destruct (write_json w 1 output_path (uncaught_result w e) true);
        cbn [exit_code files exits uncaught files_of];
        (split; [first [exists None; reflexivity
                       | eexists (Some _); reflexivity]|]);
        (split; [|discriminate]); intros v a Hin; held_document Hin.
    + cbn [exit_code files exits files_of].
      split; [eexists (Some _); reflexivity|]. split.
      * intros v a Hin. apply list_elem_of_singleton in Hin.
        injection Hin as -> ->.
        destruct (json_of_result_fields (parse_by_type w input_path)) as [-> Hp].
        split; [|exact Hp].
        destruct (success (parse_by_type w input_path)); reflexivity.
      * destruct (success (parse_by_type w input_path));
          [reflexivity | discriminate].
  - destruct (write_json w 0 output_path
                (missing_input_result w input_path) true);
      cbn [exit_code files exits uncaught files_of];
      (split; [first [exists None; reflexivity
                     | eexists (Some _); reflexivity]|]);
      (split; [|discriminate]); intros v a Hin; held_document Hin.
Qed.

(** X24. When the first writing block raises (the result cannot be
    encoded, the file cannot be opened) and the one of the last handler
    goes through, the output file holds the dictionary of that handler
    (success false, the message of the exception, the traceback and
    parsedAt) and the program exits with code 1, also when the parser
    had succeeded. *)
Theorem main_write_failure_reported (w : World)
    (prog input_path output_path : str) (e : exn) :
  argv w = [prog; input_path; output_path] ->
  path_exists w input_path = true ->
  (write_json w 0 output_path
     (json_of_result (parse_by_type w input_path)) false = NotOpened e \/
   write_json w 0 output_path
     (json_of_result (parse_by_type w input_path)) false = Broken e) ->
  write_json w 1 output_path (uncaught_result w e) true = Written ->
  main w =
  {| exit_code := 1;
     files :=
       [(output_path,
         Holds
           (JObj [ ("success", JBool false);
                   ("error", JStr (exn_message e));
                   ("traceback", JStr (format_exc w e));
                   ("parsedAt", JStr (utcnow_isoformat w ++ lit "Z")) ]%string)
           true)];
     stderr_lines := [] |}.
Proof.
  intros Hargv Hexists Hfirst Hsecond. unfold main, main_try, dump_to.
  rewrite Hargv, Hexists. cbn [negb].
  destruct Hfirst as [-> | ->]; rewrite Hsecond; reflexivity.
Qed.

Lemma main_write_failure_reported_witness :
  success (parse_by_type unencodable_job job_input) = true /\
  exit_code (main unencodable_job) = 1 /\
  files (main unencodable_job) =
  [(job_output,
    Holds
      (JObj [ ("success", JBool false);
              ("error", JStr (exn_message cannot_encode));
              ("traceback", JStr (format_exc unencodable_job cannot_encode));
              ("parsedAt",
               JStr (utcnow_isoformat unencodable_job ++ lit "Z")) ]%string)
      true)].
Proof.
  split; [vm_compute; reflexivity|].
  rewrite (main_write_failure_reported unencodable_job (lit "parse.py")
             job_input job_output cannot_encode eq_refl eq_refl
             (or_intror eq_refl) eq_refl).
  split; reflexivity.
Defined.

(** The metadata goes to the output in the order of the literal that
    built it, and nothing of it is left out. *)
Lemma json_of_metadata_pdf (m : gmap string pyvalue) :
  json_of_metadata (pdf_metadata m) =
  [ ("title", json_of_value (dict_get m "title"));
    ("author", json_of_value (dict_get m "author"));
    ("subject", json_of_value (dict_get m "subject"));
    ("creator", json_of_value (dict_get m "creator"));
    ("producer", json_of_value (dict_get m "producer"));
    ("creationDate", json_of_value (dict_get m "creationDate"));
    ("modDate", json_of_value (dict_get m "modDate")) ]%string.
Proof. reflexivity. Qed.

Lemma json_of_metadata_image (filename extension : str) (size : Z) :
  json_of_metadata
    (list_to_map [ ("filename", PyStr filename);
                   ("extension", PyStr extension);
                   ("sizeBytes", PyInt size) ]%string) =
  [ ("filename", JStr filename); ("extension", JStr extension);
    ("sizeBytes", JInt size) ]%string.
Proof. reflexivity. Qed.

Lemma json_of_metadata_empty : json_of_metadata ∅ = [].
Proof. reflexivity. Qed.

(** Every result has the metadata of one of these three forms, so that
    the order above is the order of insertion. *)
Lemma result_metadata_shape (w : World) (input_path : str) :
  metadata (parse_by_type w input_path) = ∅ \/
  (exists m, metadata (parse_by_type w input_path) = pdf_metadata m) \/
  (exists filename extension size,
      metadata (parse_by_type w input_path) =
      list_to_map [ ("filename", PyStr filename);
                    ("extension", PyStr extension);
                    ("sizeBytes", PyInt size) ]%string).
Proof.
  assert (Hpdf : metadata (parse_pdf w input_path) = ∅ \/
                 exists m, metadata (parse_pdf w input_path) = pdf_metadata m).
  { destruct (fitz_open w input_path) as [doc|e] eqn:Hopen.
    - rewrite (run_metadata w input_path doc Hopen).
      destruct (metadata_truthy (doc_metadata doc)); [right; eexists|left];
        reflexivity.
    - left. rewrite parse_pdf_view, Hopen.
      rewrite (proj1 (proj2 (proj2 (proj2 (handle_fields e _))))). reflexivity. }
  unfold parse_by_type.
  destruct (ends_with (lit ".pdf") (lower (unicode_lower w) input_path)).
  { destruct Hpdf as [H|H]; [left | right; left]; exact H. }
  destruct (existsb _ image_suffixes).
  { rewrite parse_image_view.
    destruct (read_bytes w input_path) as [content|e];
      [destruct (stat_size w input_path) as [size|e]|].
    - right. right. eexists. eexists. eexists. reflexivity.
    - left. reflexivity.
    - left. reflexivity. }
  destruct (negb (success (parse_pdf w input_path)));
    cbn [metadata append_warning];
    (destruct Hpdf as [H|H]; [left | right; left]; exact H).
Qed.

(** ** More on the section detector *)

(** The headers found, in the order of the scan, are picked from the
    vocabulary without changing its order. *)
Lemma scan_patterns_names (u : str) (pats : list string) :
  t_name <$> scan_patterns u pats `sublist_of` pats.
Proof.
  induction pats as [|p pats IH]; cbn [scan_patterns].
  - constructor.
  - destruct (first_found u (search_patterns p)).
    + cbn [fmap list_fmap t_name]. apply sublist_skip, IH.
    + apply sublist_cons, IH.
Qed.

Lemma scan_patterns_detected (u : str) (pats : list string) :
  Forall (fun t => t_detected t = true) (scan_patterns u pats).
Proof.
  induction pats as [|p pats IH]; cbn [scan_patterns].
  - constructor.
  - destruct (first_found u (search_patterns p)); [constructor|];
      (reflexivity || exact IH).
Qed.

Lemma add_end_index_names (n : Z) (l : list TentativeSpan) :
  name <$> add_end_index n l = t_name <$> l.
Proof. induction l as [|t l IH]; [reflexivity|]. cbn. f_equal. exact IH. Qed.

Lemma sections_names (u : str) (pats : list string) (n : Z) :
  NoDup pats ->
  let ss := add_end_index n (sort_spans (scan_patterns u pats)) in
  NoDup (name <$> ss) /\
  Forall (fun s => name s ∈ pats /\ detected s = true) ss /\
  (length ss <= length pats)%nat.
Proof.
  intros Hnd ss. subst ss.
  pose proof (scan_patterns_names u pats) as Hsub.
  pose proof (sort_spans_perm (scan_patterns u pats)) as Hperm.
  split; [|split].
  - rewrite add_end_index_names, Hperm. eapply sublist_NoDup; eassumption.
  - apply Forall_forall. intros s Hs.
    destruct (add_end_index_elem _ _ _ Hs) as (i & t & Hi & Hn & _).
    apply list_elem_of_lookup in Hs as [j Hj].
    rewrite add_end_index_lookup in Hj.
    destruct (sort_spans (scan_patterns u pats) !! j) as [t'|] eqn:E;
      [|discriminate].
    injection Hj as <-. cbn [name detected].
    apply list_elem_of_lookup_2 in E. rewrite Hperm in E. split.
    + eapply elem_of_sublist; [|exact Hsub].
      apply list_elem_of_fmap. exists t'. split; [reflexivity | exact E].
    + pose proof (scan_patterns_detected u pats) as Hd.
      rewrite Forall_forall in Hd. apply Hd, E.
  - rewrite add_end_index_length, Hperm.
    apply sublist_length in Hsub. rewrite length_fmap in Hsub. exact Hsub.
Qed.

(** X13. A text gets at most one span per header: the names of the spans
    returned are pairwise distinct headers of the vocabulary, every span
    is flagged [detected], and there are at most 32 spans. *)
Theorem detect_sections_names (upper_char : N -> str) (text : str) :
  let ss := detect_sections upper_char text in
  NoDup (name <$> ss) /\
  Forall (fun s => name s ∈ section_patterns /\ detected s = true) ss /\
  (length ss <= 32)%nat.
Proof.
  exact (sections_names (upper upper_char text) section_patterns (len text)
           section_patterns_nodup).
Qed.

Lemma search_patterns_closer (pattern : string) (search : str) :
  search ∈ search_patterns pattern ->
  exists c : N, search = nl :: lit pattern ++ [c] /\ c ∈ [58%N; nl; 32%N].
Proof.
  unfold search_patterns. rewrite !elem_of_cons, elem_of_nil.
  intros [-> | [-> | [-> | []]]]; eexists; (split; [reflexivity|]).
  - left.
  - right. left.
  - right. right. left.
Qed.

Lemma sections_anchor (u : str) (pats : list string) (n : Z) (s : SectionSpan) :
  s ∈ add_end_index n (sort_spans (scan_patterns u pats)) ->
  exists (pre post : str) (c : N),
    u = pre ++ nl :: lit (name s) ++ c :: post /\
    startIndex s = len pre + 1 /\ c ∈ [58%N; nl; 32%N].
Proof.
  intros Hs. destruct (add_end_index_elem _ _ _ Hs) as (i & t & Hi & Hn & Hst & _).
  apply list_elem_of_lookup_2 in Hi.
  rewrite (sort_spans_perm (scan_patterns u pats)) in Hi.
  destruct (scan_patterns_elem _ _ _ Hi) as (idx & Hff & Hidx).
  destruct (first_found_some _ _ _ Hff) as (search & k & Hin & -> & Ho & _).
  destruct (search_patterns_closer _ _ Hin) as (c & -> & Hc).
  destruct Ho as (pre & post & Hu & Hlen).
  exists pre, post, c. rewrite Hn, Hst, Hidx. split; [|split].
  - rewrite Hu. simpl. rewrite <- app_assoc. reflexivity.
  - unfold len. rewrite Hlen. reflexivity.
  - exact Hc.
Qed.

(** X14. Every span is anchored at its header: in the upper-cased text,
    the span's start is the index right after a newline, the header
    stands there, and a colon, a newline or a space follows it. *)
Theorem detect_sections_anchor (upper_char : N -> str) (text : str)
    (s : SectionSpan) :
  s ∈ detect_sections upper_char text ->
  exists (pre post : str) (c : N),
    upper upper_char text = pre ++ nl :: lit (name s) ++ c :: post /\
    startIndex s = len pre + 1 /\ c ∈ [58%N; nl; 32%N].
Proof.
  exact (sections_anchor (upper upper_char text) section_patterns (len text) s).
Qed.

Lemma detect_sections_anchor_witness :
  exists (pre post : str) (c : N),
    upper upper_char_latin1 stable_note =
      pre ++ nl :: lit "PLAN" ++ c :: post /\
    32 = len pre + 1 /\ c ∈ [58%N; nl; 32%N].
Proof.
  apply (detect_sections_anchor upper_char_latin1 stable_note
           {| name := "PLAN"; startIndex := 32; detected := true;
              endIndex := 61 |}).
  rewrite detect_sections_stable_note. right. left.
Defined.

Lemma sections_no_newline (u : str) (pats : list string) (n : Z) :
  nl ∉ u -> add_end_index n (sort_spans (scan_patterns u pats)) = [].
Proof.
  intros Hnl.
  destruct (add_end_index n (sort_spans (scan_patterns u pats))) as [|s l] eqn:E;
    [reflexivity|].
  exfalso. apply Hnl.
  destruct (sections_anchor u pats n s) as (pre & post & c & -> & _).
  - rewrite E. left.
  - apply elem_of_app. right. left.
Qed.

(** X15. A text whose upper-cased form holds no newline, the empty text
    included, has no section. *)
Theorem detect_sections_no_newline (upper_char : N -> str) (text : str) :
  nl ∉ upper upper_char text -> detect_sections upper_char text = [].
Proof.
  exact (sections_no_newline (upper upper_char text) section_patterns (len text)).
Qed.

Lemma detect_sections_no_newline_witness :
  detect_sections upper_char_latin1 single_line = [] /\
  detect_sections upper_char_latin1 [] = [].
Proof.
  split.
  - apply detect_sections_no_newline.
    apply (bool_decide_unpack _). vm_compute. exact I.
  - apply detect_sections_no_newline.
    apply (bool_decide_unpack _). vm_compute. exact I.
Defined.

Lemma upper_same_length (upper_char : N -> str) (text : str) :
  (forall c, c ∈ text -> length (upper_char c) = 1%nat) ->
  length (upper upper_char text) = length text.
Proof.
  unfold upper. induction text as [|c text IH]; intros H; [reflexivity|].
  cbn [flat_map]. rewrite length_app, (H c) by left.
  rewrite IH by (intros c' Hc'; apply H; right; exact Hc'). reflexivity.
Qed.

(** X16. On a text each of whose characters has a one-character upper
    case (any ASCII text, for one), every span lies within the text:
    [1 <= startIndex <= endIndex <= len(text)]. *)
Theorem detect_sections_within_text (upper_char : N -> str) (text : str) :
  (forall c, c ∈ text -> length (upper_char c) = 1%nat) ->
  forall s : SectionSpan,
    s ∈ detect_sections upper_char text ->
    1 <= startIndex s /\ startIndex s <= endIndex s /\ endIndex s <= len text.
Proof.
  intros H. apply detect_sections_bounds, upper_same_length, H.
Qed.

Lemma detect_sections_within_text_witness :
  1 <= 32 /\ 32 <= 61 /\ 61 <= len stable_note.
Proof.
  apply (detect_sections_within_text upper_char_latin1 stable_note)
    with (s := {| name := "PLAN"; startIndex := 32; detected := true;
                  endIndex := 61 |}).
  - apply Forall_forall. apply (bool_decide_unpack _). vm_compute. exact I.
  - rewrite detect_sections_stable_note. right. left.
Defined.

(** The sort does not reorder spans that share a start. *)
Lemma insert_span_same_start (x : TentativeSpan) (l : list TentativeSpan)
    (k : Z) :
  filter (fun t => t_startIndex t = k) (insert_span x l) =
  filter (fun t => t_startIndex t = k) (x :: l).
Proof.
  induction l as [|y l IH]; [reflexivity|].
  cbn [insert_span]. destruct (Z.leb_spec (t_startIndex x) (t_startIndex y)) as [Hle|Hgt].
  - reflexivity.
  - destruct (decide (t_startIndex x = k)) as [Hx|Hx].
    + rewrite (filter_cons_False _ y) by (simpl; lia).
      rewrite (filter_cons_True _ x (y :: l)) by exact Hx.
      rewrite (filter_cons_False _ y l) by (simpl; lia).
      rewrite IH. rewrite filter_cons_True by exact Hx. reflexivity.
    + rewrite (filter_cons_False _ x (y :: l)) by exact Hx.
      rewrite !(filter_cons _ y). rewrite IH.
      rewrite filter_cons_False by exact Hx. reflexivity.
Qed.

Lemma sort_spans_same_start (l : list TentativeSpan) (k : Z) :
  filter (fun t => t_startIndex t = k) (sort_spans l) =
  filter (fun t => t_startIndex t = k) l.
Proof.
  induction l as [|x l IH]; [reflexivity|].
  cbn [sort_spans]. rewrite insert_span_same_start.
  rewrite !(filter_cons _ x). rewrite IH. reflexivity.
Qed.

Lemma add_end_index_same_start (n : Z) (l : list TentativeSpan) (k : Z) :
  name <$> filter (fun s => startIndex s = k) (add_end_index n l) =
  t_name <$> filter (fun t => t_startIndex t = k) l.
Proof.
  induction l as [|t l IH]; [reflexivity|].
  cbn [add_end_index]. destruct (decide (t_startIndex t = k)) as [E|E].
  - rewrite !filter_cons_True by exact E. cbn. f_equal. exact IH.
  - rewrite !filter_cons_False by exact E. exact IH.
Qed.

Lemma sections_same_start (u : str) (pats : list string) (n k : Z) :
  name <$> filter (fun s => startIndex s = k)
             (add_end_index n (sort_spans (scan_patterns u pats)))
  `sublist_of` pats.
Proof.
  rewrite add_end_index_same_start, sort_spans_same_start.
  etransitivity; [|apply scan_patterns_names].
  apply fmap_sublist, sublist_filter.
Qed.

(** X17. Spans that start at the same index, as those of a header and of
    a longer header it begins, come in the order of the vocabulary: their
    names, in the order returned, can be read off the vocabulary from top
    to bottom. *)
Theorem detect_sections_same_start (upper_char : N -> str) (text : str)
    (k : Z) :
  name <$> filter (fun s => startIndex s = k) (detect_sections upper_char text)
  `sublist_of` section_patterns.
Proof.
  exact (sections_same_start (upper upper_char text) section_patterns
           (len text) k).
Qed.

(** ** More on the content hash *)

Lemma utf8_char_encodable (c : N) : is_Some (utf8_char c) <-> encodable c.
Proof.
  unfold utf8_char, encodable.
  destruct (Z.ltb_spec (Z.of_N c) 128); [split; [lia | eauto]|].
  destruct (Z.ltb_spec (Z.of_N c) 2048); [split; [lia | eauto]|].
  destruct (Z.leb_spec 55296 (Z.of_N c)); destruct (Z.leb_spec (Z.of_N c) 57343);
    cbn [andb].
  - split; [intros [x Hx]; discriminate | lia].
  - destruct (Z.ltb_spec (Z.of_N c) 65536); [split; [lia | eauto]|].
    destruct (Z.ltb_spec (Z.of_N c) 1114112); [split; [lia | eauto]|].
    split; [intros [x Hx]; discriminate | lia].
  - destruct (Z.ltb_spec (Z.of_N c) 65536); [split; [lia | eauto]|]. lia.
  - lia.
Qed.

Lemma utf8_encode_encodable (s : str) :
  is_Some (utf8_encode s) <-> Forall encodable s.
Proof.
  induction s as [|c s IH]; cbn [utf8_encode].
  - split; [constructor | eauto].
  - rewrite Forall_cons, <- IH, <- utf8_char_encodable.
    destruct (utf8_char c), (utf8_encode s); split;
      try (intros [x Hx]; discriminate); try (intros [[x Hx] [y Hy]]; discriminate);
      eauto.
Qed.

(** X18. The hasher returns exactly on the texts all of whose characters
    UTF-8 can encode, and raises on any text that holds a surrogate. *)
Theorem compute_hash_returns_iff (content : str) :
  (exists h, compute_hash content = Returns h) <-> Forall encodable content.
Proof.
  rewrite <- utf8_encode_encodable. unfold compute_hash.
  destruct (utf8_encode content) as [bytes|]; split; eauto.
  - intros [h Hh]. discriminate.
  - intros [x Hx]. discriminate.
Qed.

Lemma flat_map_length_const {A B} (f : A -> list B) (k : nat) (l : list A) :
  (forall x, length (f x) = k) -> length (flat_map f l) = (k * length l)%nat.
Proof.
  intros H. induction l as [|x l IH]; cbn [flat_map length]; [lia|].
  rewrite length_app, H, IH. lia.
Qed.

Lemma be_bytes_length (n : nat) (x : Z) : length (Sha256.be_bytes n x) = n.
Proof.
  revert x. induction n as [|n IH]; intros x; cbn [Sha256.be_bytes]; [reflexivity|].
  rewrite length_app, IH. simpl. lia.
Qed.

Lemma be_bytes_range (n : nat) (x : Z) :
  Forall (fun b => 0 <= b < 256) (Sha256.be_bytes n x).
Proof.
  revert x. induction n as [|n IH]; intros x; cbn [Sha256.be_bytes]; [constructor|].
  apply Forall_app. split; [apply IH|]. constructor; [|constructor].
  change 255 with (Z.ones 8). rewrite Z.land_ones by lia.
  apply Z.mod_pos_bound. lia.
Qed.

Lemma hex_digit_is_hex (d : Z) : 0 <= d < 16 -> is_hex (Sha256.hex_digit d).
Proof.
  intros Hd. unfold Sha256.hex_digit, is_hex.
  destruct (Z.ltb_spec d 10); lia.
Qed.

Lemma hex_byte_is_hex (b : Z) :
  0 <= b < 256 -> Forall is_hex (Sha256.hex_byte b).
Proof.
  intros Hb. unfold Sha256.hex_byte.
  constructor; [|constructor; [|constructor]]; apply hex_digit_is_hex.
  - rewrite Z.shiftr_div_pow2 by lia. change (2 ^ 4) with 16.
    split; [apply Z.div_pos; lia | apply Z.div_lt_upper_bound; lia].
  - change 15 with (Z.ones 4). rewrite Z.land_ones by lia.
    apply Z.mod_pos_bound. lia.
Qed.

Lemma round_length (st : list Z) (kw : Z * Z) :
  length (Sha256.round st kw) = length st.
Proof.
  unfold Sha256.round.
  destruct st as [|a [|b [|c [|d [|e [|f [|g [|h [|i st]]]]]]]]]; reflexivity.
Qed.

Lemma rounds_length (kws : list (Z * Z)) (st : list Z) :
  length (fold_left Sha256.round kws st) = length st.
Proof.
  revert st. induction kws as [|kw kws IH]; intros st; [reflexivity|].
  cbn [fold_left]. rewrite IH. apply round_length.
Qed.

Lemma add_words_length (xs ys : list Z) :
  length xs = length ys -> length (Sha256.add_words xs ys) = length xs.
Proof.
  revert ys. induction xs as [|x xs IH]; intros [|y ys] H; try discriminate;
    [reflexivity|].
  cbn [Sha256.add_words length]. rewrite IH; [reflexivity|].
  simpl in H. lia.
Qed.

Lemma compress_length (h block : list Z) :
  length (Sha256.compress h block) = length h.
Proof.
  unfold Sha256.compress. apply add_words_length.
  symmetry. apply rounds_length.
Qed.

Lemma digest_length (msg : list Z) : length (Sha256.digest msg) = 8%nat.
Proof.
  unfold Sha256.digest.
  generalize (Sha256.blocks (length (Sha256.words (Sha256.pad msg)))
                (Sha256.words (Sha256.pad msg))).
  intros bs. change 8%nat with (length Sha256.H0).
  generalize Sha256.H0. induction bs as [|b bs IH]; intros h; [reflexivity|].
  cbn [fold_left]. rewrite IH. apply compress_length.
Qed.

Lemma hexdigest_format (msg : list Z) :
  length (Sha256.hexdigest msg) = 64%nat /\ Forall is_hex (Sha256.hexdigest msg).
Proof.
  unfold Sha256.hexdigest. split.
  - rewrite (flat_map_length_const Sha256.hex_byte 2) by reflexivity.
    rewrite (flat_map_length_const (Sha256.be_bytes 4) 4)
      by (intros; apply be_bytes_length).
    rewrite digest_length. reflexivity.
  - apply Forall_forall. intros c Hc.
    apply list_elem_of_In, in_flat_map in Hc as (b & Hb & Hc).
    apply in_flat_map in Hb as (x & _ & Hb).
    pose proof (be_bytes_range 4 x) as Hr. rewrite Forall_forall in Hr.
    pose proof (hex_byte_is_hex b (Hr b (proj2 (list_elem_of_In _ _) Hb))) as Hh.
    rewrite Forall_forall in Hh. apply Hh, list_elem_of_In, Hc.
Qed.

(** X19. Whenever the hasher returns, its result is a string of 64
    lower-case hexadecimal digits. *)
Theorem compute_hash_format (content h : str) :
  compute_hash content = Returns h ->
  length h = 64%nat /\ Forall is_hex h.
Proof.
  intros H. apply compute_hash_returns in H as (bytes & _ & ->).
  apply hexdigest_format.
Qed.

Lemma compute_hash_format_witness :
  length (lit "ba7816bf8f01cfea414140de5dae2223b00361a396177a9cb410ff61f20015ad")
    = 64%nat /\
  Forall is_hex
    (lit "ba7816bf8f01cfea414140de5dae2223b00361a396177a9cb410ff61f20015ad").
Proof.
  apply (compute_hash_format (lit "abc")). exact compute_hash_abc.
Defined.

(** X20. The content hash of a run of the primary pipeline is empty
    exactly when the run fails; that of a run that succeeds has 64
    characters. *)
Theorem content_hash_empty_iff_failed (w : World) (input_path : str) :
  let r := parse_pdf w input_path in
  (contentHash r = [] <-> success r = false) /\
  (success r = true -> length (contentHash r) = 64%nat).
Proof.
  intros r. subst r. rewrite parse_pdf_view.
  assert (Ho : forall doc, contentHash (after_open w doc) = []).
  { intros doc. apply after_open_fields. }
  destruct (fitz_open w input_path) as [doc|e].
  2:{ destruct (handle_fields e (initial_result w)) as (-> & _ & -> & _).
      repeat split; discriminate. }
  destruct (extract_pages 0 (doc_pages doc) [] []) as [x|e].
  2:{ destruct (handle_fields e (after_open w doc)) as (-> & _ & -> & _).
      rewrite Ho. repeat split; discriminate. }
  destruct (compute_hash (join [nl; nl] (fst x))) as [h|e] eqn:Eh.
  2:{ destruct (handle_fields e (after_pages w doc x)) as (-> & _ & -> & _).
      unfold after_pages. cbn [contentHash set_tables set_text]. rewrite Ho.
      repeat split; discriminate. }
  cbn [success contentHash set_success].
  destruct (with_warnings_fields (after_extraction w doc x h)) as (_ & -> & _).
  assert (Hh : contentHash (after_extraction w doc x h) = h) by reflexivity.
  rewrite Hh.
  apply compute_hash_returns in Eh as (bytes & _ & ->).
  destruct (hexdigest_format bytes) as [Hlen _].
  split; [|intros _; exact Hlen].
  split; [|discriminate]. intros E. rewrite E in Hlen. discriminate Hlen.
Qed.

(** ** Documents without text, texts without encoding *)

Lemma extract_pages_textless (pages : list Page) (k : Z)
    (acc : list str) (t : list TableRecord) :
  Forall (fun pg => get_text pg = Returns []) pages ->
  exists t', extract_pages k pages acc t = Returns (acc, t').
Proof.
  intros H. revert k t. induction H as [|pg pages Hpg _ IH]; intros k t.
  - exists t. reflexivity.
  - cbn [extract_pages]. rewrite Hpg. cbn [truthy]. apply IH.
Qed.

Lemma empty_text_hash :
  compute_hash [] =
  Returns (lit "e3b0c44298fc1c149afbf4c8996fb92427ae41e4649b934ca495991b7852b855").
Proof. vm_compute. reflexivity. Qed.

(** X21. A document none of whose pages has text (a scan, or a document
    without pages) is parsed with success: the text is empty, there is no
    section, the hash is the digest of the empty string, and the first
    warning is the low-content one. *)
Theorem textless_document_succeeds (w : World) (input_path : str)
    (doc : Document) :
  fitz_open w input_path = Returns doc ->
  Forall (fun pg => get_text pg = Returns []) (doc_pages doc) ->
  let r := parse_pdf w input_path in
  success r = true /\ text r = [] /\ sections r = [] /\
  contentHash r =
    lit "e3b0c44298fc1c149afbf4c8996fb92427ae41e4649b934ca495991b7852b855" /\
  head (warnings r) = Some low_content_warning.
Proof.
  intros Hopen Hpages r. subst r.
  destruct (extract_pages_textless _ 0 [] [] Hpages) as [t Hx].
  rewrite parse_pdf_view, Hopen, Hx. cbn [fst join].
  rewrite empty_text_hash.
  cbn [success text sections contentHash warnings set_success].
  destruct (with_warnings_fields
              (after_extraction w doc ([], t)
                 (lit "e3b0c44298fc1c149afbf4c8996fb92427ae41e4649b934ca495991b7852b855")))
    as (-> & -> & _).
  destruct (with_warnings_kept
              (after_extraction w doc ([], t)
                 (lit "e3b0c44298fc1c149afbf4c8996fb92427ae41e4649b934ca495991b7852b855")))
    as (_ & -> & _).
  rewrite with_warnings_list.
  set (r0 := after_extraction w doc ([], t) _).
  assert (Ht : text r0 = []) by reflexivity.
  assert (Hs : sections r0 = []).
  { unfold r0, after_extraction. cbn [sections set_sections fst join].
    apply (sections_no_newline (upper (unicode_upper w) []) section_patterns
             (len [])).
    apply not_elem_of_nil. }
  assert (Hw : warnings r0 = []).
  { unfold r0, after_extraction, after_pages.
    cbn [warnings set_sections set_contentHash set_tables set_text].
    apply after_open_fields. }
  rewrite Ht, Hs, Hw. repeat split.
Qed.

Lemma textless_document_succeeds_witness :
  let r := parse_pdf (world_of [] true (Returns scanned_document)) job_input in
  success r = true /\ text r = [] /\
  head (warnings r) = Some low_content_warning.
Proof.
  intros r.
  destruct (textless_document_succeeds
              (world_of [] true (Returns scanned_document)) job_input
              scanned_document eq_refl) as (Hs & Ht & _ & _ & Hw).
  { repeat constructor. }
  repeat split; assumption.
Defined.

(** X22. When the text cannot be encoded, the run fails after the text
    and the tables were stored: the result keeps them, together with the
    page count, but has no hash and no section, and its only warning is
    the one of the handler, whatever the length of the text. *)
Theorem unencodable_text_is_kept (w : World) (input_path : str)
    (doc : Document) (extracted : list str * list TableRecord) :
  fitz_open w input_path = Returns doc ->
  extract_pages 0 (doc_pages doc) [] [] = Returns extracted ->
  utf8_encode (join [nl; nl] (fst extracted)) = None ->
  let r := parse_pdf w input_path in
  success r = false /\
  text r = join [nl; nl] (fst extracted) /\ tables r = snd extracted /\
  pageCount r = Z.of_nat (length (doc_pages doc)) /\
  contentHash r = [] /\ sections r = [] /\
  exists msg, warnings r = [lit "Unexpected error: " ++ msg].
Proof.
  intros Hopen Hx Henc r. subst r.
  rewrite parse_pdf_view, Hopen, Hx. unfold compute_hash. rewrite Henc.
  cbn [handle success text tables pageCount contentHash sections warnings
       set_success append_warning after_pages set_tables set_text].
  destruct (after_open_fields w doc) as (_ & -> & -> & -> & _).
  assert (Hs : sections (after_open w doc) = []).
  { unfold after_open. destruct (metadata_truthy (doc_metadata doc)); reflexivity. }
  rewrite Hs. repeat split. eexists. reflexivity.
Qed.

Lemma unencodable_text_is_kept_witness :
  let r := parse_pdf (world_of [] true (Returns surrogate_document)) job_input in
  success r = false /\
  text r = lit "--- Page 1 ---" ++ [nl; 55296%N] /\ contentHash r = [].
Proof.
  intros r.
  destruct (unencodable_text_is_kept
              (world_of [] true (Returns surrogate_document)) job_input
              surrogate_document
              ([lit "--- Page 1 ---" ++ [nl; 55296%N]], []) eq_refl)
    as (Hs & Ht & _ & _ & Hh & _).
  { vm_compute. reflexivity. }
  { vm_compute. reflexivity. }
  repeat split; assumption.
Defined.
